(** * daily-word-challenge: attempt recording and streak aggregation

    A shallow embedding of the server actions of [src/actions/index.ts]
    ([requireUser], [recordAttempt], [listAttempts], [getStats]) over the
    three tables declared in the table file ([DailyChallenges],
    [DailyChallengeAttempts], [UserChallengeStats]).

    Modelling conventions.
    - The [number] columns and the integer inputs hold integers; they are
      modelled as [Z] (JavaScript arithmetic on them is exact on the safe
      integer range, which is the range counters incremented by one live in).
    - [text] columns are [string]; an optional column or a [null] is [option].
    - A [date] column holds a timestamp, modelled as [Z]; [new Date()] reads
      the clock of the world.
    - A handler is a program tree [Prog]: every [await db...] of the source is
      one [Await] node, every [new Date()] one [NewDate] node, a [throw new
      ActionError] is [Throw].  The tree is written once and read two ways:
      [run] executes it from start to end against a world, [interleave]
      executes several pending handler calls one query at a time, in the order
      a schedule gives. *)

From Stdlib Require Import ZArith List String Bool Lia.
Import ListNotations.
Open Scope string_scope.
Open Scope list_scope.
Open Scope Z_scope.

(* ================================================================== *)
(** ** Tables *)

Inductive Difficulty := easy | medium | hard.

Module DailyChallenges.
Record row := {
  id : Z;
  challengeDate : string;
  language : string;
  word : string;
  definition : option string;
  exampleSentence : option string;
  hint : option string;
  difficulty : Difficulty;
  meta : option string;
  isActive : bool;
  createdAt : Z
}.
End DailyChallenges.

Module DailyChallengeAttempts.
(** What [.values({...})] is given: every column but the generated [id]. *)
Record values := {
  v_challengeId : Z;
  v_userId : string;
  v_guess : string;
  v_isCorrect : bool;
  v_attemptNumber : Z;
  v_createdAt : Z
}.
Record row := {
  id : Z;
  challengeId : Z;
  userId : string;
  guess : string;
  isCorrect : bool;
  attemptNumber : Z;
  createdAt : Z
}.
Definition with_id (i : Z) (v : values) : row :=
  {| id := i; challengeId := v_challengeId v; userId := v_userId v;
     guess := v_guess v; isCorrect := v_isCorrect v;
     attemptNumber := v_attemptNumber v; createdAt := v_createdAt v |}.
End DailyChallengeAttempts.

Module UserChallengeStats.
Record row := {
  id : Z;
  userId : string;
  totalPlayed : Z;
  totalSolved : Z;
  currentStreak : Z;
  bestStreak : Z;
  lastPlayedDate : option string;
  lastSolvedDate : option string;
  updatedAt : Z
}.
(** The object built when no row exists (it is inserted as it is). *)
Record values := {
  v_userId : string;
  v_totalPlayed : Z;
  v_totalSolved : Z;
  v_currentStreak : Z;
  v_bestStreak : Z;
  v_lastPlayedDate : option string;
  v_lastSolvedDate : option string;
  v_updatedAt : Z
}.
(** The object built when a row exists: the six recomputed fields only. *)
Record patch := {
  p_totalPlayed : Z;
  p_totalSolved : Z;
  p_currentStreak : Z;
  p_bestStreak : Z;
  p_lastPlayedDate : option string;
  p_lastSolvedDate : option string
}.
Definition with_id (i : Z) (v : values) : row :=
  {| id := i; userId := v_userId v;
     totalPlayed := v_totalPlayed v; totalSolved := v_totalSolved v;
     currentStreak := v_currentStreak v; bestStreak := v_bestStreak v;
     lastPlayedDate := v_lastPlayedDate v;
     lastSolvedDate := v_lastSolvedDate v;
     updatedAt := v_updatedAt v |}.
(** [{ ...existingStats, ...updatedStats, updatedAt: t }]: the fields of the
    old row, overwritten by the patch, then by the fresh timestamp. *)
Definition spread (existingStats : row) (updatedStats : patch) (t : Z) : row :=
  {| id := id existingStats; userId := userId existingStats;
     totalPlayed := p_totalPlayed updatedStats;
     totalSolved := p_totalSolved updatedStats;
     currentStreak := p_currentStreak updatedStats;
     bestStreak := p_bestStreak updatedStats;
     lastPlayedDate := p_lastPlayedDate updatedStats;
     lastSolvedDate := p_lastSolvedDate updatedStats;
     updatedAt := t |}.
End UserChallengeStats.

(* ================================================================== *)
(** ** Request context and errors *)

Module User.
Record t := { id : string }.
End User.

Record Locals := { user : option User.t }.
Record ActionAPIContext := { locals : option Locals }.

Inductive ErrorCode := UNAUTHORIZED | NOT_FOUND.
Record ActionError := { code : ErrorCode; message : string }.

(* ================================================================== *)
(** ** The world: the three tables and the clock *)

Record World := {
  tblChallenges : list DailyChallenges.row;
  tblAttempts : list DailyChallengeAttempts.row;
  tblStats : list UserChallengeStats.row;
  clock : nat -> Z;       (* the value of the n-th reading of the clock *)
  ticks : nat             (* how many readings were made *)
}.

Definition now (w : World) : Z := clock w (ticks w).

Definition tick (w : World) : World :=
  {| tblChallenges := tblChallenges w; tblAttempts := tblAttempts w;
     tblStats := tblStats w; clock := clock w; ticks := S (ticks w) |}.

(** The key an auto-increment primary key column gives the next row: one more
    than the largest key in the table. *)
Definition next_id (ids : list Z) : Z := 1 + fold_right Z.max 0 ids.

(* ================================================================== *)
(** ** Queries *)

Inductive Eff : Type -> Type :=
  (* db.select().from(DailyChallenges).where(eq(id, i)).limit(1) *)
| selectChallengeById (i : Z) : Eff (list DailyChallenges.row)
  (* db.insert(DailyChallengeAttempts).values(v).returning() *)
| insertAttempt (v : DailyChallengeAttempts.values)
    : Eff (list DailyChallengeAttempts.row)
  (* db.select().from(DailyChallengeAttempts).where(eq(userId, u)) *)
| selectAttemptsByUser (u : string) : Eff (list DailyChallengeAttempts.row)
  (* db.select().from(UserChallengeStats).where(eq(userId, u)).limit(1) *)
| selectStatsByUser (u : string) : Eff (list UserChallengeStats.row)
  (* db.update(UserChallengeStats).set(r).where(eq(id, i)) *)
| updateStatsById (i : Z) (r : UserChallengeStats.row) : Eff unit
  (* db.insert(UserChallengeStats).values(v) *)
| insertStats (v : UserChallengeStats.values) : Eff unit.

Definition challengesById (i : Z) (w : World) : list DailyChallenges.row :=
  firstn 1 (filter (fun c => DailyChallenges.id c =? i) (tblChallenges w)).

Definition attemptsByUser (u : string) (w : World)
  : list DailyChallengeAttempts.row :=
  filter (fun a => String.eqb (DailyChallengeAttempts.userId a) u)
         (tblAttempts w).

Definition statsByUser (u : string) (w : World) : list UserChallengeStats.row :=
  firstn 1 (filter (fun s => String.eqb (UserChallengeStats.userId s) u)
                   (tblStats w)).

Definition set_attempts (l : list DailyChallengeAttempts.row) (w : World) :=
  {| tblChallenges := tblChallenges w; tblAttempts := l;
     tblStats := tblStats w; clock := clock w; ticks := ticks w |}.

Definition set_stats (l : list UserChallengeStats.row) (w : World) :=
  {| tblChallenges := tblChallenges w; tblAttempts := tblAttempts w;
     tblStats := l; clock := clock w; ticks := ticks w |}.

Definition replace_stats (i : Z) (r : UserChallengeStats.row)
  (l : list UserChallengeStats.row) : list UserChallengeStats.row :=
  map (fun s => if UserChallengeStats.id s =? i then r else s) l.

Definition exec {X} (q : Eff X) (w : World) : X * World :=
  match q in Eff X return X * World with
  | selectChallengeById i => (challengesById i w, w)
  | insertAttempt v =>
      let r := DailyChallengeAttempts.with_id
                 (next_id (map DailyChallengeAttempts.id (tblAttempts w))) v in
      ([r], set_attempts (tblAttempts w ++ [r]) w)
  | selectAttemptsByUser u => (attemptsByUser u w, w)
  | selectStatsByUser u => (statsByUser u w, w)
  | updateStatsById i r => (tt, set_stats (replace_stats i r (tblStats w)) w)
  | insertStats v =>
      let r := UserChallengeStats.with_id
                 (next_id (map UserChallengeStats.id (tblStats w))) v in
      (tt, set_stats (tblStats w ++ [r]) w)
  end.

(** What a query touches. *)
Inductive Table := Challenges | Attempts | Stats.
Inductive Access := Read (t : Table) | Write (t : Table).

Definition access_of {X} (q : Eff X) : Access :=
  match q with
  | selectChallengeById _ => Read Challenges
  | insertAttempt _ => Write Attempts
  | selectAttemptsByUser _ => Read Attempts
  | selectStatsByUser _ => Read Stats
  | updateStatsById _ _ => Write Stats
  | insertStats _ => Write Stats
  end.

Definition is_write (a : Access) : bool :=
  match a with Write _ => true | Read _ => false end.

(* ================================================================== *)
(** ** Handler programs *)

Inductive Prog (R : Type) : Type :=
| Return (r : R)
| Throw (e : ActionError)
| Await (X : Type) (q : Eff X) (k : X -> Prog R)
| NewDate (k : Z -> Prog R).

Arguments Return {R} r.
Arguments Throw {R} e.
Arguments Await {R X} q k.
Arguments NewDate {R} k.

Fixpoint bind {A B} (p : Prog A) (f : A -> Prog B) : Prog B :=
  match p with
  | Return a => f a
  | Throw e => Throw e
  | Await q k => Await q (fun x => bind (k x) f)
  | NewDate k => NewDate (fun t => bind (k t) f)
  end.

Definition await {X} (q : Eff X) : Prog X := Await q (fun x => Return x).
Definition newDate : Prog Z := NewDate (fun t => Return t).

Declare Scope prog_scope.
Delimit Scope prog_scope with prog.
Notation "x <- p ;; k" := (bind p (fun x => k))
  (at level 100, p at next level, right associativity) : prog_scope.
Notation "p ;;; k" := (bind p (fun _ => k))
  (at level 100, right associativity) : prog_scope.
Open Scope prog_scope.

(** [a ?? d] *)
Definition nullish {A} (a : option A) (d : A) : A :=
  match a with Some x => x | None => d end.

(** Truthiness of an optional integer: [undefined] and [0] are falsy. *)
Definition truthy (n : option Z) : bool :=
  match n with Some x => negb (x =? 0) | None => false end.

Definition unauthorized : ActionError :=
  {| code := UNAUTHORIZED;
     message := "You must be signed in to perform this action." |}.

Definition not_available : ActionError :=
  {| code := NOT_FOUND; message := "Challenge not available." |}.

(** [context.locals?.user]: the identity the request carries, if any. *)
Definition resolvedUser (context : ActionAPIContext) : option User.t :=
  match locals context with Some l => user l | None => None end.

(** [requireUser]: the resolved user, or the error thrown when there is none. *)
Definition requireUser (context : ActionAPIContext) : Prog User.t :=
  match resolvedUser context with
  | None => Throw unauthorized
  | Some u => Return u
  end.

Module RecordAttempt.
Record input := {
  challengeId : Z;
  guess : string;
  isCorrect : option bool;
  attemptNumber : option Z
}.
End RecordAttempt.

Module ListAttempts.
Record input := { challengeId : option Z }.
End ListAttempts.

(** The [existingStats ? {...}] branch of [updatedStats]. *)
Definition updatedStats_existing (existingStats : UserChallengeStats.row)
  (isCorrect : bool) (today : string) : UserChallengeStats.patch :=
  let e := existingStats in
  {| UserChallengeStats.p_totalPlayed := UserChallengeStats.totalPlayed e + 1;
     UserChallengeStats.p_totalSolved :=
       UserChallengeStats.totalSolved e + (if isCorrect then 1 else 0);
     UserChallengeStats.p_currentStreak :=
       if isCorrect then UserChallengeStats.currentStreak e + 1 else 0;
     UserChallengeStats.p_bestStreak :=
       if isCorrect
       then Z.max (UserChallengeStats.bestStreak e)
                  (UserChallengeStats.currentStreak e + 1)
       else UserChallengeStats.bestStreak e;
     UserChallengeStats.p_lastPlayedDate := Some today;
     UserChallengeStats.p_lastSolvedDate :=
       if isCorrect then Some today else UserChallengeStats.lastSolvedDate e |}.

(** The [: {...}] branch of [updatedStats]. *)
Definition updatedStats_fresh (isCorrect : bool) (today : string)
  (userId : string) (t : Z) : UserChallengeStats.values :=
  {| UserChallengeStats.v_totalPlayed := 1;
     UserChallengeStats.v_totalSolved := if isCorrect then 1 else 0;
     UserChallengeStats.v_currentStreak := if isCorrect then 1 else 0;
     UserChallengeStats.v_bestStreak := if isCorrect then 1 else 0;
     UserChallengeStats.v_lastPlayedDate := Some today;
     UserChallengeStats.v_lastSolvedDate :=
       if isCorrect then Some today else None;
     UserChallengeStats.v_userId := userId;
     UserChallengeStats.v_updatedAt := t |}.

(** [recordAttempt]'s handler.  The two tests of [existingStats] of the source
    (the one that builds [updatedStats], the one that chooses between update
    and insert) are one [match] here: nothing runs between them. *)
Definition recordAttempt (input : RecordAttempt.input)
  (context : ActionAPIContext) : Prog (option DailyChallengeAttempts.row) :=
  user <- requireUser context ;;
  rows <- await (selectChallengeById (RecordAttempt.challengeId input)) ;;
  match hd_error rows with
  | None => Throw not_available
  | Some challenge =>
    if negb (DailyChallenges.isActive challenge) then Throw not_available
    else
      createdAt <- newDate ;;
      inserted <- await (insertAttempt
        {| DailyChallengeAttempts.v_challengeId :=
             RecordAttempt.challengeId input;
           DailyChallengeAttempts.v_userId := User.id user;
           DailyChallengeAttempts.v_guess := RecordAttempt.guess input;
           DailyChallengeAttempts.v_isCorrect :=
             nullish (RecordAttempt.isCorrect input) false;
           DailyChallengeAttempts.v_attemptNumber :=
             nullish (RecordAttempt.attemptNumber input) 1;
           DailyChallengeAttempts.v_createdAt := createdAt |}) ;;
      let attempt := hd_error inserted in
      found <- await (selectStatsByUser (User.id user)) ;;
      let isCorrect := nullish (RecordAttempt.isCorrect input) false in
      let today := DailyChallenges.challengeDate challenge in
      match hd_error found with
      | Some existingStats =>
          let updatedStats :=
            updatedStats_existing existingStats isCorrect today in
          t <- newDate ;;
          await (updateStatsById (UserChallengeStats.id existingStats)
                   (UserChallengeStats.spread existingStats updatedStats t)) ;;;
          Return attempt
      | None =>
          t <- newDate ;;
          let updatedStats :=
            updatedStats_fresh isCorrect today (User.id user) t in
          await (insertStats updatedStats) ;;;
          Return attempt
      end
  end.

(** [listAttempts]'s handler. *)
Definition listAttempts (input : option ListAttempts.input)
  (context : ActionAPIContext) : Prog (list DailyChallengeAttempts.row) :=
  user <- requireUser context ;;
  attempts <- await (selectAttemptsByUser (User.id user)) ;;
  let wanted :=
    match input with Some i => ListAttempts.challengeId i | None => None end in
  let filtered :=
    if truthy wanted
    then filter (fun a =>
                   match wanted with
                   | Some c => DailyChallengeAttempts.challengeId a =? c
                   | None => false
                   end) attempts
    else attempts in
  Return filtered.

(** [getStats]'s handler: [stats ?? null]. *)
Definition getStats (context : ActionAPIContext)
  : Prog (option UserChallengeStats.row) :=
  user <- requireUser context ;;
  found <- await (selectStatsByUser (User.id user)) ;;
  Return (hd_error found).

(* ================================================================== *)
(** ** Running a handler from start to end *)

Definition Outcome (R : Type) : Type := ((ActionError + R) * World * list Access).

Fixpoint run {R} (p : Prog R) (w : World) : Outcome R :=
  match p with
  | Return r => (inr r, w, [])
  | Throw e => (inl e, w, [])
  | Await q k =>
      let '(x, w1) := exec q w in
      let '(r, w2, l) := run (k x) w1 in
      (r, w2, access_of q :: l)
  | NewDate k => run (k (now w)) (tick w)
  end.

Definition result_of {R} (o : Outcome R) : ActionError + R := fst (fst o).
Definition world_of {R} (o : Outcome R) : World := snd (fst o).
Definition log_of {R} (o : Outcome R) : list Access := snd o.

(** The context of a signed-in user. *)
Definition signedIn (u : User.t) : ActionAPIContext :=
  {| locals := Some {| user := Some u |} |}.

(** The world after [u] has submitted the attempts of [inputs] one after the
    other, each call running to its end before the next starts. *)
Fixpoint submitAll (u : User.t) (inputs : list RecordAttempt.input) (w : World)
  : World :=
  match inputs with
  | [] => w
  | i :: rest => submitAll u rest (world_of (run (recordAttempt i (signedIn u)) w))
  end.

(** The row [getStats] would return for the user, and its counters with the
    column defaults for a user who has no row. *)
Definition statsOf (u : User.t) (w : World) : option UserChallengeStats.row :=
  hd_error (statsByUser (User.id u) w).

Definition played (o : option UserChallengeStats.row) : Z :=
  match o with Some s => UserChallengeStats.totalPlayed s | None => 0 end.
Definition solved (o : option UserChallengeStats.row) : Z :=
  match o with Some s => UserChallengeStats.totalSolved s | None => 0 end.
Definition streak (o : option UserChallengeStats.row) : Z :=
  match o with Some s => UserChallengeStats.currentStreak s | None => 0 end.
Definition best (o : option UserChallengeStats.row) : Z :=
  match o with Some s => UserChallengeStats.bestStreak s | None => 0 end.

(** The challenge a call with this [challengeId] finds, if any. *)
Definition challengeOf (i : Z) (w : World) : option DailyChallenges.row :=
  hd_error (challengesById i w).

Definition playable (w : World) (i : RecordAttempt.input) : Prop :=
  exists c, challengeOf (RecordAttempt.challengeId i) w = Some c
            /\ DailyChallenges.isActive c = true.

Definition verdict (i : RecordAttempt.input) : bool :=
  nullish (RecordAttempt.isCorrect i) false.

(** The attempt row a call by [u] with [input] inserts into [w], and the stats
    row it leaves for the user: the old row overwritten when there is one, a
    new row with a generated key otherwise. *)
Definition attemptRow (u : User.t) (input : RecordAttempt.input) (w : World)
  : DailyChallengeAttempts.row :=
  DailyChallengeAttempts.with_id
    (next_id (map DailyChallengeAttempts.id (tblAttempts w)))
    {| DailyChallengeAttempts.v_challengeId := RecordAttempt.challengeId input;
       DailyChallengeAttempts.v_userId := User.id u;
       DailyChallengeAttempts.v_guess := RecordAttempt.guess input;
       DailyChallengeAttempts.v_isCorrect :=
         nullish (RecordAttempt.isCorrect input) false;
       DailyChallengeAttempts.v_attemptNumber :=
         nullish (RecordAttempt.attemptNumber input) 1;
       DailyChallengeAttempts.v_createdAt := now w |}.

Definition statsRowAfter (prior : option UserChallengeStats.row)
  (isCorrect : bool) (today userId : string) (t key : Z)
  : UserChallengeStats.row :=
  match prior with
  | Some e =>
      UserChallengeStats.spread e (updatedStats_existing e isCorrect today) t
  | None =>
      UserChallengeStats.with_id key
        (updatedStats_fresh isCorrect today userId t)
  end.

(* ================================================================== *)
(** ** Running several pending calls, one query at a time

    A handler runs without interruption between two [await]s.  A pending call
    is the program that remains to run; it is always stopped at an [Await]
    (its query is in flight) or finished.  [resume] lets the query in flight
    complete against the world and runs the call on to its next [await]. *)

Fixpoint settle {R} (p : Prog R) (w : World) : Prog R * World :=
  match p with
  | NewDate k => settle (k (now w)) (tick w)
  | _ => (p, w)
  end.

Definition resume {R} (p : Prog R) (w : World) : Prog R * World :=
  match p with
  | Await q k => let '(x, w1) := exec q w in settle (k x) w1
  | _ => (p, w)
  end.

Definition finished {R} (p : Prog R) : bool :=
  match p with
  | Return _ | Throw _ => true
  | _ => false
  end.

(** The calls are made one after the other; each runs to its first [await]. *)
Fixpoint startAll {R} (calls : list (Prog R)) (w : World)
  : list (Prog R) * World :=
  match calls with
  | [] => ([], w)
  | p :: rest =>
      let '(p', w1) := settle p w in
      let '(rest', w2) := startAll rest w1 in
      (p' :: rest', w2)
  end.

Fixpoint resumeNth {R} (n : nat) (pool : list (Prog R)) (w : World)
  : list (Prog R) * World :=
  match pool, n with
  | [], _ => ([], w)
  | p :: rest, O => let '(p', w') := resume p w in (p' :: rest, w')
  | p :: rest, S m =>
      let '(rest', w') := resumeNth m rest w in (p :: rest', w')
  end.

(** A schedule names, step after step, the pending call whose query completes
    next. *)
Fixpoint interleave {R} (sched : list nat) (pool : list (Prog R)) (w : World)
  : list (Prog R) * World :=
  match sched with
  | [] => (pool, w)
  | n :: rest =>
      let '(pool', w') := resumeNth n pool w in interleave rest pool' w'
  end.

(** The world once the concurrent calls [inputs] of [u], interleaved as
    [sched] says, have run, and whether all of them are finished. *)
Definition submitConcurrently (u : User.t) (inputs : list RecordAttempt.input)
  (sched : list nat) (w : World) : list (Prog (option DailyChallengeAttempts.row)) * World :=
  let '(pool, w0) :=
    startAll (map (fun i => recordAttempt i (signedIn u)) inputs) w in
  interleave sched pool w0.

(** [n] queries of one pending call completing in a row. *)
Fixpoint resumes {R} (n : nat) (p : Prog R) (w : World) : Prog R * World :=
  match n with
  | O => (p, w)
  | S m => let '(p', w') := resume p w in resumes m p' w'
  end.

(** The schedule that serves the calls one after the other: the four queries
    of call [from], then those of call [from + 1], and so on for [n] calls. *)
Definition serial (n from : nat) : list nat :=
  flat_map (fun k => repeat k 4) (seq from n).

(** The concurrent-submission property as the specification words it: however
    the queries of N concurrent correct submissions of one user with no stats
    row interleave, once all of them are finished the user has played N and
    is on a streak of N. *)
Definition noLostUpdate : Prop :=
  forall (u : User.t) (inputs : list RecordAttempt.input) (sched : list nat)
         (w : World),
    statsOf u w = None ->
    Forall (playable w) inputs ->
    Forall (fun i => verdict i = true) inputs ->
    forallb finished (fst (submitConcurrently u inputs sched w)) = true ->
    played (statsOf u (snd (submitConcurrently u inputs sched w)))
      = Z.of_nat (List.length inputs)
    /\ streak (statsOf u (snd (submitConcurrently u inputs sched w)))
      = Z.of_nat (List.length inputs).

(** A finished call, from its result. *)
Definition ended {R} (r : ActionError + R) : Prog R :=
  match r with inl e => Throw e | inr x => Return x end.

(** The input with the value given to an omitted field written out. *)
Definition withIsCorrect (b : option bool) (i : RecordAttempt.input)
  : RecordAttempt.input :=
  {| RecordAttempt.challengeId := RecordAttempt.challengeId i;
     RecordAttempt.guess := RecordAttempt.guess i;
     RecordAttempt.isCorrect := b;
     RecordAttempt.attemptNumber := RecordAttempt.attemptNumber i |}.

Definition withAttemptNumber (n : option Z) (i : RecordAttempt.input)
  : RecordAttempt.input :=
  {| RecordAttempt.challengeId := RecordAttempt.challengeId i;
     RecordAttempt.guess := RecordAttempt.guess i;
     RecordAttempt.isCorrect := RecordAttempt.isCorrect i;
     RecordAttempt.attemptNumber := n |}.

(** What every sequence of calls keeps true of a user's counters. *)
Definition statsInv (o : option UserChallengeStats.row) : Prop :=
  solved o <= played o /\ streak o <= best o /\ 0 <= best o.

(* ================================================================== *)
(** ** A small world to evaluate on *)

Definition alice : User.t := {| User.id := "alice" |}.

Definition challenge (i : Z) (date : string) (active : bool)
  : DailyChallenges.row :=
  {| DailyChallenges.id := i; DailyChallenges.challengeDate := date;
     DailyChallenges.language := "en"; DailyChallenges.word := "crane";
     DailyChallenges.definition := None;
     DailyChallenges.exampleSentence := None; DailyChallenges.hint := None;
     DailyChallenges.difficulty := medium; DailyChallenges.meta := None;
     DailyChallenges.isActive := active; DailyChallenges.createdAt := 0 |}.

Definition world0 : World :=
  {| tblChallenges := [challenge 1 "2025-01-01" true;
                       challenge 2 "2025-01-02" true;
                       challenge 3 "2025-01-03" true;
                       challenge 4 "2025-01-04" false];
     tblAttempts := []; tblStats := [];
     clock := fun n => 1000 + Z.of_nat n; ticks := 0 |}.

Definition attemptOn (c : Z) (ok : option bool) : RecordAttempt.input :=
  {| RecordAttempt.challengeId := c; RecordAttempt.guess := "crane";
     RecordAttempt.isCorrect := ok; RecordAttempt.attemptNumber := None |}.

(* ================================================================== *)
(** ** Challenge management: [createChallenge], [updateChallenge],
       [getActiveChallengeForDate]

    The three handlers that write and look up [DailyChallenges].  They take
    no context: the source does not call [requireUser] in them. *)

Module ChallengeValues.
(** What [createChallenge] gives to [.values({...})]. *)
Record t := {
  challengeDate : string;
  language : string;
  word : string;
  definition : option string;
  exampleSentence : option string;
  hint : option string;
  difficulty : Difficulty;
  meta : option string;
  isActive : bool;
  createdAt : Z
}.
Definition with_id (i : Z) (v : t) : DailyChallenges.row :=
  {| DailyChallenges.id := i;
     DailyChallenges.challengeDate := challengeDate v;
     DailyChallenges.language := language v;
     DailyChallenges.word := word v;
     DailyChallenges.definition := definition v;
     DailyChallenges.exampleSentence := exampleSentence v;
     DailyChallenges.hint := hint v;
     DailyChallenges.difficulty := difficulty v;
     DailyChallenges.meta := meta v;
     DailyChallenges.isActive := isActive v;
     DailyChallenges.createdAt := createdAt v |}.
End ChallengeValues.

Module CreateChallenge.
(** [meta] is [z.any().optional()]: absent, [null] or a value. *)
Record input := {
  challengeDate : string;
  language : option string;
  word : string;
  definition : option string;
  exampleSentence : option string;
  hint : option string;
  difficulty : option Difficulty;
  meta : option (option string);
  isActive : option bool
}.
End CreateChallenge.

Module UpdateData.
(** [updateData]: the entries of the input, [id] apart, that are not
    [undefined].  An absent entry is [None]. *)
Record t := {
  challengeDate : option string;
  language : option string;
  word : option string;
  definition : option string;
  exampleSentence : option string;
  hint : option string;
  difficulty : option Difficulty;
  meta : option (option string);
  isActive : option bool
}.
(** [Object.keys(updateData).length === 0] *)
Definition isEmpty (d : t) : bool :=
  match challengeDate d, language d, word d, definition d, exampleSentence d,
        hint d, difficulty d, meta d, isActive d with
  | None, None, None, None, None, None, None, None, None => true
  | _, _, _, _, _, _, _, _, _ => false
  end.
(** A column of the row after [.set(updateData)]: the entry when
    [updateData] has one, the old value otherwise. *)
Definition over {A} (entry : option A) (old : A) : A :=
  match entry with Some v => v | None => old end.
(** [.set(updateData)] on one row.  The optional text columns can be given a
    string but not [null]; [meta] can be given [null]. *)
Definition set (d : t) (r : DailyChallenges.row) : DailyChallenges.row :=
  {| DailyChallenges.id := DailyChallenges.id r;
     DailyChallenges.challengeDate :=
       over (challengeDate d) (DailyChallenges.challengeDate r);
     DailyChallenges.language := over (language d) (DailyChallenges.language r);
     DailyChallenges.word := over (word d) (DailyChallenges.word r);
     DailyChallenges.definition :=
       over (option_map Some (definition d)) (DailyChallenges.definition r);
     DailyChallenges.exampleSentence :=
       over (option_map Some (exampleSentence d))
            (DailyChallenges.exampleSentence r);
     DailyChallenges.hint :=
       over (option_map Some (hint d)) (DailyChallenges.hint r);
     DailyChallenges.difficulty :=
       over (difficulty d) (DailyChallenges.difficulty r);
     DailyChallenges.meta := over (meta d) (DailyChallenges.meta r);
     DailyChallenges.isActive := over (isActive d) (DailyChallenges.isActive r);
     DailyChallenges.createdAt := DailyChallenges.createdAt r |}.
End UpdateData.

Module UpdateChallenge.
Record input := {
  id : Z;
  challengeDate : option string;
  language : option string;
  word : option string;
  definition : option string;
  exampleSentence : option string;
  hint : option string;
  difficulty : option Difficulty;
  meta : option (option string);
  isActive : option bool
}.
(** [const { id, ...rest } = input], then the loop that copies the entries
    of [rest] that are not [undefined]. *)
Definition updateData (i : input) : UpdateData.t :=
  {| UpdateData.challengeDate := challengeDate i;
     UpdateData.language := language i;
     UpdateData.word := word i;
     UpdateData.definition := definition i;
     UpdateData.exampleSentence := exampleSentence i;
     UpdateData.hint := hint i;
     UpdateData.difficulty := difficulty i;
     UpdateData.meta := meta i;
     UpdateData.isActive := isActive i |}.
End UpdateChallenge.

Module GetActiveChallengeForDate.
Record input := {
  challengeDate : string;
  language : option string
}.
End GetActiveChallengeForDate.

Definition set_challenges (l : list DailyChallenges.row) (w : World) :=
  {| tblChallenges := l; tblAttempts := tblAttempts w;
     tblStats := tblStats w; clock := clock w; ticks := ticks w |}.

Definition onDate (date language : string) (c : DailyChallenges.row) : bool :=
  String.eqb (DailyChallenges.challengeDate c) date
  && String.eqb (DailyChallenges.language c) language.

Definition challengesByDate (date language : string) (w : World)
  : list DailyChallenges.row :=
  firstn 1 (filter (onDate date language) (tblChallenges w)).

Definition update_challenges (i : Z) (d : UpdateData.t)
  (l : list DailyChallenges.row) : list DailyChallenges.row :=
  map (fun c => if DailyChallenges.id c =? i then UpdateData.set d c else c) l.

(** The queries of these handlers; [core] is a query the other handlers
    make too. *)
Inductive ChallengeEff : Type -> Type :=
  (* db.insert(DailyChallenges).values(v).returning() *)
| insertChallenge (v : ChallengeValues.t) : ChallengeEff (list DailyChallenges.row)
  (* db.select().from(DailyChallenges)
       .where(and(eq(challengeDate, d), eq(language, l))).limit(1) *)
| selectChallengeByDate (d l : string) : ChallengeEff (list DailyChallenges.row)
  (* db.update(DailyChallenges).set(d).where(eq(id, i)).returning() *)
| updateChallengeById (i : Z) (d : UpdateData.t)
    : ChallengeEff (list DailyChallenges.row)
| core (X : Type) (q : Eff X) : ChallengeEff X.

Arguments core {X} q.

Definition execChallenge {X} (q : ChallengeEff X) (w : World) : X * World :=
  match q in ChallengeEff X return X * World with
  | insertChallenge v =>
      let r := ChallengeValues.with_id
                 (next_id (map DailyChallenges.id (tblChallenges w))) v in
      ([r], set_challenges (tblChallenges w ++ [r]) w)
  | selectChallengeByDate d l => (challengesByDate d l w, w)
  | updateChallengeById i d =>
      (map (UpdateData.set d)
           (filter (fun c => DailyChallenges.id c =? i) (tblChallenges w)),
       set_challenges (update_challenges i d (tblChallenges w)) w)
  | core q => exec q w
  end.

Definition accessChallenge {X} (q : ChallengeEff X) : Access :=
  match q with
  | insertChallenge _ => Write Challenges
  | selectChallengeByDate _ _ => Read Challenges
  | updateChallengeById _ _ => Write Challenges
  | core q => access_of q
  end.

Inductive CProg (R : Type) : Type :=
| CReturn (r : R)
| CThrow (e : ActionError)
| CAwait (X : Type) (q : ChallengeEff X) (k : X -> CProg R)
| CNewDate (k : Z -> CProg R).

Arguments CReturn {R} r.
Arguments CThrow {R} e.
Arguments CAwait {R X} q k.
Arguments CNewDate {R} k.

Fixpoint cbind {A B} (p : CProg A) (f : A -> CProg B) : CProg B :=
  match p with
  | CReturn a => f a
  | CThrow e => CThrow e
  | CAwait q k => CAwait q (fun x => cbind (k x) f)
  | CNewDate k => CNewDate (fun t => cbind (k t) f)
  end.

Definition cawait {X} (q : ChallengeEff X) : CProg X :=
  CAwait q (fun x => CReturn x).
Definition cnewDate : CProg Z := CNewDate (fun t => CReturn t).

Declare Scope cprog_scope.
Delimit Scope cprog_scope with cprog.
Notation "x <- p ;; k" := (cbind p (fun x => k))
  (at level 100, p at next level, right associativity) : cprog_scope.

Fixpoint crun {R} (p : CProg R) (w : World) : Outcome R :=
  match p with
  | CReturn r => (inr r, w, [])
  | CThrow e => (inl e, w, [])
  | CAwait q k =>
      let '(x, w1) := execChallenge q w in
      let '(r, w2, l) := crun (k x) w1 in
      (r, w2, accessChallenge q :: l)
  | CNewDate k => crun (k (now w)) (tick w)
  end.

Definition not_found : ActionError :=
  {| code := NOT_FOUND; message := "Challenge not found." |}.

(** [createChallenge]'s handler. *)
Definition createChallenge (input : CreateChallenge.input)
  : CProg (option DailyChallenges.row) :=
  (createdAt <- cnewDate ;;
   rows <- cawait (insertChallenge
     {| ChallengeValues.challengeDate := CreateChallenge.challengeDate input;
        ChallengeValues.language :=
          nullish (CreateChallenge.language input) "en";
        ChallengeValues.word := CreateChallenge.word input;
        ChallengeValues.definition := CreateChallenge.definition input;
        ChallengeValues.exampleSentence :=
          CreateChallenge.exampleSentence input;
        ChallengeValues.hint := CreateChallenge.hint input;
        ChallengeValues.difficulty :=
          nullish (CreateChallenge.difficulty input) medium;
        ChallengeValues.meta :=
          (* absent and [null] are both stored as NULL *)
          match CreateChallenge.meta input with Some m => m | None => None end;
        ChallengeValues.isActive :=
          nullish (CreateChallenge.isActive input) true;
        ChallengeValues.createdAt := createdAt |}) ;;
   CReturn (hd_error rows))%cprog.

(** [updateChallenge]'s handler. *)
Definition updateChallenge (input : UpdateChallenge.input)
  : CProg (option DailyChallenges.row) :=
  (found <- cawait (core (selectChallengeById (UpdateChallenge.id input))) ;;
   match hd_error found with
   | None => CThrow not_found
   | Some existing =>
       let updateData := UpdateChallenge.updateData input in
       if UpdateData.isEmpty updateData then CReturn (Some existing)
       else
         rows <- cawait (updateChallengeById (UpdateChallenge.id input)
                           updateData) ;;
         CReturn (hd_error rows)
   end)%cprog.

(** [getActiveChallengeForDate]'s handler. *)
Definition getActiveChallengeForDate (input : GetActiveChallengeForDate.input)
  : CProg DailyChallenges.row :=
  (rows <- cawait (selectChallengeByDate
                     (GetActiveChallengeForDate.challengeDate input)
                     (nullish (GetActiveChallengeForDate.language input) "en")) ;;
   match hd_error rows with
   | None => CThrow not_found
   | Some challenge =>
       if negb (DailyChallenges.isActive challenge) then CThrow not_found
       else CReturn challenge
   end)%cprog.

(** Inputs to evaluate on. *)
Definition newChallenge (date : string) (language : option string)
  (active : option bool) : CreateChallenge.input :=
  {| CreateChallenge.challengeDate := date;
     CreateChallenge.language := language;
     CreateChallenge.word := "slate";
     CreateChallenge.definition := None;
     CreateChallenge.exampleSentence := None;
     CreateChallenge.hint := None;
     CreateChallenge.difficulty := None;
     CreateChallenge.meta := None;
     CreateChallenge.isActive := active |}.

Definition noChange (i : Z) : UpdateChallenge.input :=
  {| UpdateChallenge.id := i;
     UpdateChallenge.challengeDate := None;
     UpdateChallenge.language := None;
     UpdateChallenge.word := None;
     UpdateChallenge.definition := None;
     UpdateChallenge.exampleSentence := None;
     UpdateChallenge.hint := None;
     UpdateChallenge.difficulty := None;
     UpdateChallenge.meta := None;
     UpdateChallenge.isActive := None |}.

Definition setActive (i : Z) (b : bool) : UpdateChallenge.input :=
  {| UpdateChallenge.id := i;
     UpdateChallenge.challengeDate := None;
     UpdateChallenge.language := None;
     UpdateChallenge.word := None;
     UpdateChallenge.definition := None;
     UpdateChallenge.exampleSentence := None;
     UpdateChallenge.hint := None;
     UpdateChallenge.difficulty := None;
     UpdateChallenge.meta := None;
     UpdateChallenge.isActive := Some b |}.


(* ================================================================== *)
(** ** Sequences of calls, and what is stated of the worlds they reach *)

(** One call of one of the six actions. *)
Inductive Call :=
| callCreateChallenge (input : CreateChallenge.input)
| callUpdateChallenge (input : UpdateChallenge.input)
| callGetActiveChallengeForDate (input : GetActiveChallengeForDate.input)
| callRecordAttempt (input : RecordAttempt.input) (context : ActionAPIContext)
| callListAttempts (input : option ListAttempts.input)
    (context : ActionAPIContext)
| callGetStats (context : ActionAPIContext).

(** The world a call leaves, whether it returns or throws. *)
Definition perform (c : Call) (w : World) : World :=
  match c with
  | callCreateChallenge i => world_of (crun (createChallenge i) w)
  | callUpdateChallenge i => world_of (crun (updateChallenge i) w)
  | callGetActiveChallengeForDate i =>
      world_of (crun (getActiveChallengeForDate i) w)
  | callRecordAttempt i ctx => world_of (run (recordAttempt i ctx) w)
  | callListAttempts i ctx => world_of (run (listAttempts i ctx) w)
  | callGetStats ctx => world_of (run (getStats ctx) w)
  end.

(** Calls made one after the other, each over before the next starts. *)
Definition performAll (cs : list Call) (w : World) : World :=
  fold_left (fun w c => perform c w) cs w.

(** The database before any call. *)
Definition emptyWorld (clk : nat -> Z) : World :=
  {| tblChallenges := []; tblAttempts := []; tblStats := [];
     clock := clk; ticks := 0 |}.

(** The primary keys of the three tables are keys. *)
Definition keysUnique (w : World) : Prop :=
  NoDup (map DailyChallenges.id (tblChallenges w))
  /\ NoDup (map DailyChallengeAttempts.id (tblAttempts w))
  /\ NoDup (map UserChallengeStats.id (tblStats w)).

(** No two stats rows are of the same user. *)
Definition oneRowPerUser (w : World) : Prop :=
  NoDup (map UserChallengeStats.userId (tblStats w)).

(** Every attempt is on a challenge of the table. *)
Definition attemptsReferChallenges (w : World) : Prop :=
  Forall (fun a => In (DailyChallengeAttempts.challengeId a)
                      (map DailyChallenges.id (tblChallenges w)))
         (tblAttempts w).

(** What holds of a stats row the handler wrote. *)
Definition statsRowSound (s : UserChallengeStats.row) : Prop :=
  1 <= UserChallengeStats.totalPlayed s
  /\ 0 <= UserChallengeStats.currentStreak s
  /\ UserChallengeStats.currentStreak s <= UserChallengeStats.bestStreak s
  /\ UserChallengeStats.bestStreak s <= UserChallengeStats.totalSolved s
  /\ UserChallengeStats.totalSolved s <= UserChallengeStats.totalPlayed s
  /\ UserChallengeStats.lastPlayedDate s <> None
  /\ (UserChallengeStats.lastSolvedDate s = None
      <-> UserChallengeStats.totalSolved s = 0).

(** The row [createChallenge] inserts into [w]. *)
Definition createdRow (input : CreateChallenge.input) (w : World)
  : DailyChallenges.row :=
  {| DailyChallenges.id := next_id (map DailyChallenges.id (tblChallenges w));
     DailyChallenges.challengeDate := CreateChallenge.challengeDate input;
     DailyChallenges.language := nullish (CreateChallenge.language input) "en";
     DailyChallenges.word := CreateChallenge.word input;
     DailyChallenges.definition := CreateChallenge.definition input;
     DailyChallenges.exampleSentence := CreateChallenge.exampleSentence input;
     DailyChallenges.hint := CreateChallenge.hint input;
     DailyChallenges.difficulty :=
       nullish (CreateChallenge.difficulty input) medium;
     DailyChallenges.meta :=
       match CreateChallenge.meta input with Some m => m | None => None end;
     DailyChallenges.isActive := nullish (CreateChallenge.isActive input) true;
     DailyChallenges.createdAt := now w |}.


Definition bob : User.t := {| User.id := "bob" |}.

(** A sequence of calls to evaluate on, from the empty database. *)
Definition sampleCalls : list Call :=
  [callCreateChallenge (newChallenge "2025-02-01" None None);
   callRecordAttempt (attemptOn 1 (Some true)) (signedIn alice);
   callRecordAttempt (attemptOn 1 None) (signedIn bob);
   callRecordAttempt (attemptOn 1 (Some true)) (signedIn alice);
   callUpdateChallenge (setActive 1 false);
   callRecordAttempt (attemptOn 1 (Some true)) (signedIn bob);
   callUpdateChallenge (setActive 1 true);
   callGetStats (signedIn alice)].

Definition sampleWorld : World :=
  performAll sampleCalls (emptyWorld (fun n => Z.of_nat n)).

(** [challengeKept c c']: [c'] is the challenge [c] at a later time: same key,
    same creation time, and no optional text that was set is unset. *)
Definition challengeKept (c c' : DailyChallenges.row) : Prop :=
  DailyChallenges.id c' = DailyChallenges.id c
  /\ DailyChallenges.createdAt c' = DailyChallenges.createdAt c
  /\ (DailyChallenges.definition c <> None ->
      DailyChallenges.definition c' <> None)
  /\ (DailyChallenges.exampleSentence c <> None ->
      DailyChallenges.exampleSentence c' <> None)
  /\ (DailyChallenges.hint c <> None -> DailyChallenges.hint c' <> None).

(** The length of the run of correct outcomes a sequence starts with, and of
    the longest run of consecutive correct outcomes in it. *)
Fixpoint leading (l : list bool) : nat :=
  match l with
  | true :: rest => S (leading rest)
  | _ => O
  end.

Fixpoint longestRun (l : list bool) : nat :=
  match l with
  | [] => O
  | _ :: rest => Nat.max (leading l) (longestRun rest)
  end.

(** The run of correct outcomes a sequence ends with. *)
Definition trailing (l : list bool) : nat := leading (rev l).



(** What a query may assume of its answer, and what it must write, for the
    stats table to stay sound: rows read from the stats are sound rows; an
    update writes a sound row under the key it names, an insert a sound
    row. *)
Definition answerSound {X} (q : Eff X) : X -> Prop :=
  match q in Eff X return X -> Prop with
  | selectStatsByUser _ => fun rows => Forall statsRowSound rows
  | _ => fun _ => True
  end.

Definition writeSound {X} (q : Eff X) : Prop :=
  match q with
  | updateStatsById i r => UserChallengeStats.id r = i /\ statsRowSound r
  | insertStats v =>
      forall key, statsRowSound (UserChallengeStats.with_id key v)
  | _ => True
  end.

(** [disciplined p]: every write [p] can come to make is sound, whatever
    sound answers its queries get. *)
Fixpoint disciplined {R} (p : Prog R) : Prop :=
  match p with
  | Return _ => True
  | Throw _ => True
  | Await q k => writeSound q /\ forall x, answerSound q x -> disciplined (k x)
  | NewDate k => forall t, disciplined (k t)
  end.


(** Concurrent calls of [recordAttempt], of any users, interleaved as [sched]
    says. *)
Definition recordConcurrently
  (calls : list (RecordAttempt.input * ActionAPIContext)) (sched : list nat)
  (w : World) : list (Prog (option DailyChallengeAttempts.row)) * World :=
  let '(pool, w0) :=
    startAll (map (fun c => recordAttempt (fst c) (snd c)) calls) w in
  interleave sched pool w0.

(* ================================================================== *)
(** ** Lists: the first row a filter keeps *)

Section FirstMatch.
Context {A : Type} (P : A -> bool).

Lemma hd_firstn_filter (l : list A) :
  hd_error (firstn 1 (filter P l)) = find P l.
Proof.
  induction l as [|a l IH]; simpl; [reflexivity|].
  destruct (P a); simpl; [reflexivity|exact IH].
Qed.

Lemma find_app_new (l : list A) (a : A) :
  find P l = None -> P a = true -> find P (l ++ [a]) = Some a.
Proof.
  intros Hnone Ha. induction l as [|b l IH]; simpl in *.
  - now rewrite Ha.
  - destruct (P b); [discriminate|auto].
Qed.

(** Overwriting the rows that carry the key of the first match by a row that
    matches too makes that row the first match. *)
Lemma find_overwrite (same : A -> bool) (l : list A) (e n : A) :
  find P l = Some e -> same e = true -> P n = true ->
  find P (map (fun s => if same s then n else s) l) = Some n.
Proof.
  intros Hfind Hsame Hn. induction l as [|b l IH]; simpl in *; [discriminate|].
  destruct (P b) eqn:Hb.
  - injection Hfind as ->. rewrite Hsame, Hn. reflexivity.
  - destruct (same b); [now rewrite Hn | rewrite Hb; auto].
Qed.
End FirstMatch.

Lemma statsOf_find (u : User.t) (w : World) :
  statsOf u w =
  find (fun s => String.eqb (UserChallengeStats.userId s) (User.id u))
       (tblStats w).
Proof. apply hd_firstn_filter. Qed.

Lemma statsOf_userId (u : User.t) (w : World) (e : UserChallengeStats.row) :
  statsOf u w = Some e -> UserChallengeStats.userId e = User.id u.
Proof.
  rewrite statsOf_find. intros H. apply find_some in H.
  now apply String.eqb_eq.
Qed.

(* ================================================================== *)
(** ** What one call of [recordAttempt] does *)

(** The world a successful call leaves. *)
Lemma run_recordAttempt (u : User.t) (i : RecordAttempt.input) (w : World)
  (c : DailyChallenges.row) :
  challengeOf (RecordAttempt.challengeId i) w = Some c ->
  DailyChallenges.isActive c = true ->
  let a := attemptRow u i w in
  let w1 := set_attempts (tblAttempts w ++ [a]) (tick w) in
  let s := statsRowAfter (statsOf u w) (verdict i)
             (DailyChallenges.challengeDate c) (User.id u) (now w1)
             (next_id (map UserChallengeStats.id (tblStats w))) in
  run (recordAttempt i (signedIn u)) w =
  (inr (Some a),
   set_stats (match statsOf u w with
              | Some e => replace_stats (UserChallengeStats.id e) s (tblStats w)
              | None => tblStats w ++ [s]
              end) (tick w1),
   [Read Challenges; Write Attempts; Read Stats; Write Stats]).
Proof.
  intros Hc Hact. unfold challengeOf in Hc.
  unfold recordAttempt, statsRowAfter, verdict, statsOf. simpl.
  rewrite Hc, Hact. simpl.
  change (statsByUser (User.id u) _) with (statsByUser (User.id u) w).
  destruct (hd_error (statsByUser (User.id u) w)); reflexivity.
Qed.

(** The row [getStats] finds afterwards is the row the call computed, and the
    challenges are left as they were. *)
Lemma after_recordAttempt (u : User.t) (i : RecordAttempt.input) (w : World)
  (c : DailyChallenges.row) :
  challengeOf (RecordAttempt.challengeId i) w = Some c ->
  DailyChallenges.isActive c = true ->
  let w' := world_of (run (recordAttempt i (signedIn u)) w) in
  tblChallenges w' = tblChallenges w
  /\ exists t key,
       statsOf u w' =
       Some (statsRowAfter (statsOf u w) (verdict i)
               (DailyChallenges.challengeDate c) (User.id u) t key).
Proof.
  intros Hc Hact. cbv zeta. rewrite (run_recordAttempt u i w c Hc Hact).
  unfold world_of. cbn [fst snd]. split; [reflexivity|].
  eexists _, _. rewrite statsOf_find. cbn [tblStats set_stats].
  destruct (statsOf u w) as [e|] eqn:He.
  - pose proof (statsOf_userId u w e He) as Hu.
    rewrite statsOf_find in He. unfold replace_stats.
    apply find_overwrite with (e := e); [exact He| |].
    + apply Z.eqb_refl.
    + cbn. rewrite Hu. apply String.eqb_refl.
  - rewrite statsOf_find in He. apply find_app_new; [exact He|].
    cbn. apply String.eqb_refl.
Qed.

Lemma playable_stable (w w' : World) (i : RecordAttempt.input) :
  tblChallenges w' = tblChallenges w -> playable w i -> playable w' i.
Proof.
  intros Heq (c & Hc & Hact). exists c. split; [|exact Hact].
  unfold challengeOf, challengesById in *. now rewrite Heq.
Qed.

(** The four counters after an outcome, from the counters before (read as [0]
    for a user without a row). *)
Section Counters.
Variables (prior : option UserChallengeStats.row) (ok : bool)
          (today userId : string) (t key : Z).
Let next := Some (statsRowAfter prior ok today userId t key).

Lemma played_after : played next = played prior + 1.
Proof. subst next. destruct prior; reflexivity. Qed.

Lemma solved_after : solved next = solved prior + (if ok then 1 else 0).
Proof. subst next. destruct prior, ok; reflexivity. Qed.

Lemma streak_after : streak next = if ok then streak prior + 1 else 0.
Proof. subst next. destruct prior, ok; reflexivity. Qed.

Lemma best_after :
  best next = if ok then Z.max (best prior) (streak prior + 1) else best prior.
Proof. subst next. destruct prior, ok; reflexivity. Qed.
End Counters.

(** One more call, from the world of the calls before. *)
Lemma submitAll_snoc (u : User.t) (inputs : list RecordAttempt.input)
  (i : RecordAttempt.input) (w : World) :
  submitAll u (inputs ++ [i]) w =
  world_of (run (recordAttempt i (signedIn u)) (submitAll u inputs w)).
Proof.
  revert w. induction inputs as [|j inputs IH]; intros w; simpl.
  - reflexivity.
  - apply IH.
Qed.

Lemma submitAll_challenges (u : User.t) (inputs : list RecordAttempt.input)
  (w : World) :
  Forall (playable w) inputs ->
  tblChallenges (submitAll u inputs w) = tblChallenges w.
Proof.
  revert w. induction inputs as [|j inputs IH]; intros w Hall; simpl.
  - reflexivity.
  - inversion Hall as [|? ? (c & Hc & Hact) Hrest]; subst.
    destruct (after_recordAttempt u j w c Hc Hact) as [Hch _].
    rewrite IH.
    + exact Hch.
    + eapply Forall_impl; [|exact Hrest].
      intros a. now apply playable_stable.
Qed.

(** The counters after a sequence of calls. *)
Lemma submitAll_counters (u : User.t) (inputs : list RecordAttempt.input) :
  forall w, Forall (playable w) inputs ->
  played (statsOf u (submitAll u inputs w))
    = played (statsOf u w) + Z.of_nat (List.length inputs)
  /\ solved (statsOf u (submitAll u inputs w))
    = solved (statsOf u w) + Z.of_nat (List.length (filter verdict inputs)).
Proof.
  induction inputs as [|j inputs IH]; intros w Hall.
  - simpl. lia.
  - inversion Hall as [|? ? (c & Hc & Hact) Hrest]; subst.
    destruct (after_recordAttempt u j w c Hc Hact) as (Hch & t & key & Hst).
    cbn [submitAll].
    destruct (IH (world_of (run (recordAttempt j (signedIn u)) w))) as [Hp Hs].
    { eapply Forall_impl; [|exact Hrest]. intros a. now apply playable_stable. }
    rewrite Hp, Hs, Hst, played_after, solved_after.
    cbn [filter List.length]. destruct (verdict j); cbn [List.length]; lia.
Qed.

(** The streak of a run of correct answers. *)
Lemma submitAll_streak (u : User.t) (inputs : list RecordAttempt.input) :
  forall w, Forall (playable w) inputs ->
  Forall (fun i => verdict i = true) inputs ->
  streak (statsOf u (submitAll u inputs w))
    = streak (statsOf u w) + Z.of_nat (List.length inputs).
Proof.
  induction inputs as [|j inputs IH]; intros w Hall Hok.
  - simpl. lia.
  - inversion Hall as [|? ? (c & Hc & Hact) Hrest]; subst.
    inversion Hok as [|? ? Hj Hok']; subst.
    destruct (after_recordAttempt u j w c Hc Hact) as (Hch & t & key & Hst).
    cbn [submitAll]. rewrite IH; [| |exact Hok'].
    + rewrite Hst, streak_after, Hj. cbn [List.length]. lia.
    + eapply Forall_impl; [|exact Hrest]. intros a. now apply playable_stable.
Qed.

Lemma statsInv_step (prior : option UserChallengeStats.row) (ok : bool)
  (today userId : string) (t key : Z) :
  statsInv prior ->
  statsInv (Some (statsRowAfter prior ok today userId t key)).
Proof.
  unfold statsInv. rewrite played_after, solved_after, streak_after, best_after.
  destruct ok; lia.
Qed.

Lemma submitAll_inv (u : User.t) (inputs : list RecordAttempt.input) :
  forall w, Forall (playable w) inputs -> statsInv (statsOf u w) ->
  statsInv (statsOf u (submitAll u inputs w)).
Proof.
  induction inputs as [|j inputs IH]; intros w Hall Hinv.
  - exact Hinv.
  - inversion Hall as [|? ? (c & Hc & Hact) Hrest]; subst.
    destruct (after_recordAttempt u j w c Hc Hact) as (Hch & t & key & Hst).
    cbn [submitAll]. apply IH.
    + eapply Forall_impl; [|exact Hrest]. intros a. now apply playable_stable.
    + rewrite Hst. now apply statsInv_step.
Qed.

(* ================================================================== *)
(** ** The stats transition *)

(** C1. A call of [recordAttempt] by a signed-in user that finds an active
    challenge leaves for the user a stats row that follows the transition
    table: from no row, a correct outcome gives (1, 1, 1, 1) with both dates
    the challenge's date and an incorrect one (1, 0, 0, 0) with the played
    date set and the solved date unset; from a row, a correct outcome gives
    (played + 1, solved + 1, streak + 1, max best (streak + 1)) with both
    dates set and an incorrect one (played + 1, solved, 0, best) with the
    played date set and the solved date kept. *)
Theorem recordAttempt_follows_table (u : User.t) (i : RecordAttempt.input)
  (w : World) (c : DailyChallenges.row) :
  challengeOf (RecordAttempt.challengeId i) w = Some c ->
  DailyChallenges.isActive c = true ->
  let today := DailyChallenges.challengeDate c in
  exists s,
    statsOf u (world_of (run (recordAttempt i (signedIn u)) w)) = Some s
    /\ log_of (run (recordAttempt i (signedIn u)) w)
       = [Read Challenges; Write Attempts; Read Stats; Write Stats]
    /\ UserChallengeStats.lastPlayedDate s = Some today
    /\ match statsOf u w, nullish (RecordAttempt.isCorrect i) false with
       | None, true =>
           UserChallengeStats.totalPlayed s = 1
           /\ UserChallengeStats.totalSolved s = 1
           /\ UserChallengeStats.currentStreak s = 1
           /\ UserChallengeStats.bestStreak s = 1
           /\ UserChallengeStats.lastSolvedDate s = Some today
       | None, false =>
           UserChallengeStats.totalPlayed s = 1
           /\ UserChallengeStats.totalSolved s = 0
           /\ UserChallengeStats.currentStreak s = 0
           /\ UserChallengeStats.bestStreak s = 0
           /\ UserChallengeStats.lastSolvedDate s = None
       | Some e, true =>
           UserChallengeStats.totalPlayed s
             = UserChallengeStats.totalPlayed e + 1
           /\ UserChallengeStats.totalSolved s
             = UserChallengeStats.totalSolved e + 1
           /\ UserChallengeStats.currentStreak s
             = UserChallengeStats.currentStreak e + 1
           /\ UserChallengeStats.bestStreak s
             = Z.max (UserChallengeStats.bestStreak e)
                     (UserChallengeStats.currentStreak e + 1)
           /\ UserChallengeStats.lastSolvedDate s = Some today
       | Some e, false =>
           UserChallengeStats.totalPlayed s
             = UserChallengeStats.totalPlayed e + 1
           /\ UserChallengeStats.totalSolved s
             = UserChallengeStats.totalSolved e
           /\ UserChallengeStats.currentStreak s = 0
           /\ UserChallengeStats.bestStreak s
             = UserChallengeStats.bestStreak e
           /\ UserChallengeStats.lastSolvedDate s
             = UserChallengeStats.lastSolvedDate e
       end.
Proof.
  intros Hc Hact today.
  destruct (after_recordAttempt u i w c Hc Hact) as (_ & t & key & Hst).
  eexists. split; [exact Hst|]. split.
  { rewrite (run_recordAttempt u i w c Hc Hact). reflexivity. }
  unfold verdict.
  destruct (statsOf u w) as [e|], (nullish (RecordAttempt.isCorrect i) false);
    cbn; repeat split; lia.
Qed.

Lemma recordAttempt_follows_table_witness :
  challengeOf 2 (submitAll alice [attemptOn 1 (Some true)] world0)
    = Some (challenge 2 "2025-01-02" true)
  /\ exists s,
       statsOf alice
         (submitAll alice [attemptOn 1 (Some true); attemptOn 2 None] world0)
       = Some s
       /\ UserChallengeStats.totalPlayed s = 2
       /\ UserChallengeStats.totalSolved s = 1
       /\ UserChallengeStats.currentStreak s = 0
       /\ UserChallengeStats.bestStreak s = 1
       /\ UserChallengeStats.lastPlayedDate s = Some "2025-01-02"
       /\ UserChallengeStats.lastSolvedDate s = Some "2025-01-01".
Proof.
  split; [reflexivity|].
  destruct (recordAttempt_follows_table alice (attemptOn 2 None)
              (submitAll alice [attemptOn 1 (Some true)] world0)
              (challenge 2 "2025-01-02" true) eq_refl eq_refl)
    as (s & Hs & _ & Hlp & Hp & Hso & Hcu & Hb & Hls).
  exists s. repeat split; assumption.
Defined.

(** C2. After any sequence of calls by a user who had no stats row, each on an
    active challenge, [totalPlayed] is the number of calls and [totalSolved]
    the number of calls whose outcome was correct. *)
Theorem totals_count_outcomes (u : User.t) (inputs : list RecordAttempt.input)
  (w : World) :
  statsOf u w = None ->
  Forall (playable w) inputs ->
  played (statsOf u (submitAll u inputs w)) = Z.of_nat (List.length inputs)
  /\ solved (statsOf u (submitAll u inputs w))
     = Z.of_nat (List.length (filter verdict inputs)).
Proof.
  intros Hnone Hall.
  destruct (submitAll_counters u inputs w Hall) as [Hp Hs].
  rewrite Hp, Hs, Hnone. cbn. split; reflexivity.
Qed.

Lemma totals_count_outcomes_witness :
  statsOf alice world0 = None
  /\ played (statsOf alice (submitAll alice
       [attemptOn 1 (Some true); attemptOn 2 None; attemptOn 3 (Some true)]
       world0)) = 3
  /\ solved (statsOf alice (submitAll alice
       [attemptOn 1 (Some true); attemptOn 2 None; attemptOn 3 (Some true)]
       world0)) = 2.
Proof.
  split; [reflexivity|].
  apply (totals_count_outcomes alice
           [attemptOn 1 (Some true); attemptOn 2 None; attemptOn 3 (Some true)]
           world0 eq_refl).
  repeat constructor; eexists; split; reflexivity.
Defined.

(** C3. After any sequence of calls by a user who had no stats row, the
    counters satisfy [totalSolved <= totalPlayed] and
    [currentStreak <= bestStreak], and one more call never lowers
    [bestStreak]. *)
Theorem streak_invariants (u : User.t) (inputs : list RecordAttempt.input)
  (i : RecordAttempt.input) (w : World) :
  statsOf u w = None ->
  Forall (playable w) inputs ->
  playable w i ->
  let before := statsOf u (submitAll u inputs w) in
  let after := statsOf u (submitAll u (inputs ++ [i]) w) in
  solved before <= played before
  /\ streak before <= best before
  /\ solved after <= played after
  /\ streak after <= best after
  /\ best before <= best after.
Proof.
  intros Hnone Hall Hi before after.
  assert (Hinv : statsInv before).
  { apply submitAll_inv; [exact Hall|]. rewrite Hnone. cbv. intuition discriminate. }
  assert (Hi' : playable (submitAll u inputs w) i).
  { eapply playable_stable; [|exact Hi]. now apply submitAll_challenges. }
  destruct Hi' as (c & Hc & Hact).
  destruct (after_recordAttempt u i _ c Hc Hact) as (_ & t & key & Hst).
  assert (Hafter : after = Some (statsRowAfter before (verdict i)
                     (DailyChallenges.challengeDate c) (User.id u) t key)).
  { subst after. rewrite submitAll_snoc. exact Hst. }
  pose proof (statsInv_step before (verdict i)
                (DailyChallenges.challengeDate c) (User.id u) t key Hinv)
    as Hinv'.
  rewrite <- Hafter in Hinv'.
  assert (Hbest : best before <= best after).
  { rewrite Hafter, best_after. destruct (verdict i); lia. }
  unfold statsInv in *. intuition.
Qed.

Lemma streak_invariants_witness :
  let before := statsOf alice (submitAll alice
                  [attemptOn 1 (Some true); attemptOn 2 (Some true)] world0) in
  let after := statsOf alice (submitAll alice
                 ([attemptOn 1 (Some true); attemptOn 2 (Some true)]
                    ++ [attemptOn 3 (Some false)]) world0) in
  statsOf alice world0 = None
  /\ solved before <= played before
  /\ streak before <= best before
  /\ solved after <= played after
  /\ streak after <= best after
  /\ best before <= best after.
Proof.
  split; [reflexivity|].
  apply (streak_invariants alice
           [attemptOn 1 (Some true); attemptOn 2 (Some true)]
           (attemptOn 3 (Some false)) world0 eq_refl).
  - repeat constructor; eexists; split; reflexivity.
  - eexists; split; reflexivity.
Defined.

(* ================================================================== *)
(** ** Failures *)

(** C4. A call by a signed-in user whose [challengeId] finds no challenge, or
    finds one that is not active, fails with the not-found error and writes
    nothing: the world is the one it started from and the only access is the
    read of the challenge. *)
Theorem recordAttempt_not_found (u : User.t) (i : RecordAttempt.input)
  (w : World) :
  challengeOf (RecordAttempt.challengeId i) w = None
  \/ (exists c, challengeOf (RecordAttempt.challengeId i) w = Some c
                /\ DailyChallenges.isActive c = false) ->
  run (recordAttempt i (signedIn u)) w = (inl not_available, w, [Read Challenges])
  /\ code not_available = NOT_FOUND
  /\ tblAttempts (world_of (run (recordAttempt i (signedIn u)) w)) = tblAttempts w
  /\ tblStats (world_of (run (recordAttempt i (signedIn u)) w)) = tblStats w
  /\ existsb is_write (log_of (run (recordAttempt i (signedIn u)) w)) = false.
Proof.
  intros H.
  assert (Hrun : run (recordAttempt i (signedIn u)) w
                 = (inl not_available, w, [Read Challenges])).
  { unfold challengeOf in H. unfold recordAttempt. simpl.
    destruct H as [Hnone | (c & Hc & Hact)].
    - rewrite Hnone. reflexivity.
    - rewrite Hc, Hact. reflexivity. }
  rewrite Hrun. repeat split.
Qed.

Lemma recordAttempt_not_found_witness :
  (challengeOf 4 world0 = Some (challenge 4 "2025-01-04" false)
   /\ run (recordAttempt (attemptOn 4 (Some true)) (signedIn alice)) world0
      = (inl not_available, world0, [Read Challenges]))
  /\ (challengeOf 9 world0 = None
      /\ run (recordAttempt (attemptOn 9 (Some true)) (signedIn alice)) world0
         = (inl not_available, world0, [Read Challenges])).
Proof.
  split; (split; [reflexivity|]).
  - apply (recordAttempt_not_found alice (attemptOn 4 (Some true)) world0).
    right. exists (challenge 4 "2025-01-04" false). split; reflexivity.
  - apply (recordAttempt_not_found alice (attemptOn 9 (Some true)) world0).
    left. reflexivity.
Defined.

(** C5. With no resolved user in the context, [recordAttempt], [listAttempts]
    and [getStats] are the program that throws the authorization error at
    once: run against any world they fail with it, leave the world as it was
    and access no table. *)
Theorem unauthorized_before_storage (context : ActionAPIContext) :
  resolvedUser context = None ->
  code unauthorized = UNAUTHORIZED
  /\ (forall i, recordAttempt i context = Throw unauthorized)
  /\ (forall i, listAttempts i context = Throw unauthorized)
  /\ getStats context = Throw unauthorized
  /\ (forall i w, run (recordAttempt i context) w = (inl unauthorized, w, []))
  /\ (forall i w, run (listAttempts i context) w = (inl unauthorized, w, []))
  /\ (forall w, run (getStats context) w = (inl unauthorized, w, [])).
Proof.
  intros Hnone.
  assert (Hreq : requireUser context = Throw unauthorized).
  { unfold requireUser. now rewrite Hnone. }
  unfold recordAttempt, listAttempts, getStats. rewrite Hreq. cbn.
  repeat split.
Qed.

Lemma unauthorized_before_storage_witness :
  run (recordAttempt (attemptOn 1 (Some true)) {| locals := None |}) world0
    = (inl unauthorized, world0, [])
  /\ run (listAttempts None {| locals := Some {| user := None |} |}) world0
    = (inl unauthorized, world0, [])
  /\ run (getStats {| locals := None |}) world0 = (inl unauthorized, world0, []).
Proof.
  split; [|split].
  - apply (unauthorized_before_storage {| locals := None |} eq_refl).
  - apply (unauthorized_before_storage
             {| locals := Some {| user := None |} |} eq_refl).
  - apply (unauthorized_before_storage {| locals := None |} eq_refl).
Defined.

(* ================================================================== *)
(** ** Dates, retries, defaults *)

(** C6. With a stats row present, the four counters a call leaves do not
    depend on the date of the challenge played: two calls with the same
    outcome from the same world, on challenges of any two dates, leave equal
    counters, and a correct outcome leaves the streak one longer whatever the
    dates are. *)
Theorem counters_ignore_dates (u : User.t) (i1 i2 : RecordAttempt.input)
  (w : World) (c1 c2 : DailyChallenges.row) (e : UserChallengeStats.row) :
  statsOf u w = Some e ->
  challengeOf (RecordAttempt.challengeId i1) w = Some c1 ->
  DailyChallenges.isActive c1 = true ->
  challengeOf (RecordAttempt.challengeId i2) w = Some c2 ->
  DailyChallenges.isActive c2 = true ->
  verdict i1 = verdict i2 ->
  exists s1 s2,
    statsOf u (world_of (run (recordAttempt i1 (signedIn u)) w)) = Some s1
    /\ statsOf u (world_of (run (recordAttempt i2 (signedIn u)) w)) = Some s2
    /\ UserChallengeStats.lastPlayedDate s1
       = Some (DailyChallenges.challengeDate c1)
    /\ UserChallengeStats.lastPlayedDate s2
       = Some (DailyChallenges.challengeDate c2)
    /\ UserChallengeStats.totalPlayed s1 = UserChallengeStats.totalPlayed s2
    /\ UserChallengeStats.totalSolved s1 = UserChallengeStats.totalSolved s2
    /\ UserChallengeStats.currentStreak s1 = UserChallengeStats.currentStreak s2
    /\ UserChallengeStats.bestStreak s1 = UserChallengeStats.bestStreak s2
    /\ (verdict i1 = true ->
        UserChallengeStats.currentStreak s1
        = UserChallengeStats.currentStreak e + 1).
Proof.
  intros He Hc1 Ha1 Hc2 Ha2 Hv.
  destruct (after_recordAttempt u i1 w c1 Hc1 Ha1) as (_ & t1 & k1 & H1).
  destruct (after_recordAttempt u i2 w c2 Hc2 Ha2) as (_ & t2 & k2 & H2).
  rewrite He in H1, H2. rewrite <- Hv in H2.
  eexists _, _. split; [exact H1|]. split; [exact H2|].
  cbn. repeat split. intros ->. reflexivity.
Qed.

Lemma counters_ignore_dates_witness :
  let w := submitAll alice [attemptOn 1 (Some true)] world0 in
  exists s1 s2,
    statsOf alice (world_of (run (recordAttempt (attemptOn 2 (Some true))
                                   (signedIn alice)) w)) = Some s1
    /\ statsOf alice (world_of (run (recordAttempt (attemptOn 3 (Some true))
                                      (signedIn alice)) w)) = Some s2
    /\ UserChallengeStats.lastPlayedDate s1 = Some "2025-01-02"
    /\ UserChallengeStats.lastPlayedDate s2 = Some "2025-01-03"
    /\ UserChallengeStats.currentStreak s1 = 2
    /\ UserChallengeStats.currentStreak s2 = 2.
Proof.
  intros w.
  destruct (counters_ignore_dates alice (attemptOn 2 (Some true))
              (attemptOn 3 (Some true)) w
              (challenge 2 "2025-01-02" true) (challenge 3 "2025-01-03" true)
              _ eq_refl eq_refl eq_refl eq_refl eq_refl eq_refl)
    as (s1 & s2 & H1 & H2 & Hd1 & Hd2 & _ & _ & Hs & _ & Hone).
  exists s1, s2. repeat split; try assumption.
  - exact (Hone eq_refl).
  - rewrite <- Hs. exact (Hone eq_refl).
Defined.

(** C7. A call is not absorbed when repeated: after the same call has run
    twice in succession, [totalPlayed] is two more than before (counting from
    [0] for a user without a row) and, when the outcome is correct,
    [totalSolved] and [currentStreak] are two more as well; the counters after
    the second call differ from those after the first. *)
Theorem retry_double_counts (u : User.t) (i : RecordAttempt.input) (w : World)
  (c : DailyChallenges.row) :
  challengeOf (RecordAttempt.challengeId i) w = Some c ->
  DailyChallenges.isActive c = true ->
  let w1 := world_of (run (recordAttempt i (signedIn u)) w) in
  let w2 := world_of (run (recordAttempt i (signedIn u)) w1) in
  played (statsOf u w2) = played (statsOf u w) + 2
  /\ played (statsOf u w2) = played (statsOf u w1) + 1
  /\ statsOf u w2 <> statsOf u w1
  /\ (verdict i = true ->
      solved (statsOf u w2) = solved (statsOf u w) + 2
      /\ streak (statsOf u w2) = streak (statsOf u w) + 2).
Proof.
  intros Hc Hact w1 w2.
  destruct (after_recordAttempt u i w c Hc Hact) as (Hch & t1 & k1 & H1).
  fold w1 in Hch, H1.
  assert (Hc1 : challengeOf (RecordAttempt.challengeId i) w1 = Some c).
  { unfold challengeOf, challengesById in *. now rewrite Hch. }
  destruct (after_recordAttempt u i w1 c Hc1 Hact) as (_ & t2 & k2 & H2).
  fold w2 in H2.
  assert (Hp2 : played (statsOf u w2) = played (statsOf u w1) + 1).
  { rewrite H2. apply played_after. }
  assert (Hp1 : played (statsOf u w1) = played (statsOf u w) + 1).
  { rewrite H1. apply played_after. }
  split; [lia|]. split; [exact Hp2|]. split.
  - intros Heq. rewrite Heq in Hp2. lia.
  - intros Hv. split.
    + rewrite H2, solved_after, H1, solved_after, Hv. lia.
    + rewrite H2, streak_after, H1, streak_after, Hv. lia.
Qed.

Lemma retry_double_counts_witness :
  let w1 := world_of (run (recordAttempt (attemptOn 1 (Some true))
                             (signedIn alice)) world0) in
  let w2 := world_of (run (recordAttempt (attemptOn 1 (Some true))
                             (signedIn alice)) w1) in
  challengeOf 1 world0 = Some (challenge 1 "2025-01-01" true)
  /\ played (statsOf alice w2) = played (statsOf alice world0) + 2
  /\ played (statsOf alice w2) = played (statsOf alice w1) + 1
  /\ statsOf alice w2 <> statsOf alice w1
  /\ (verdict (attemptOn 1 (Some true)) = true ->
      solved (statsOf alice w2) = solved (statsOf alice world0) + 2
      /\ streak (statsOf alice w2) = streak (statsOf alice world0) + 2).
Proof.
  intros w1 w2. split; [reflexivity|].
  apply (retry_double_counts alice (attemptOn 1 (Some true)) world0
           (challenge 1 "2025-01-01" true) eq_refl eq_refl).
Defined.

(** C8. A successful call returns the attempt row it stored: the row is the
    one appended to the attempts, with the key the table generated and the
    time read from the clock, its [isCorrect] is [false] when the input omits
    it and its [attemptNumber] is [1] when the input omits it.  A call that
    omits [isCorrect] runs exactly as the call that passes [false], stats
    included, and a call that omits [attemptNumber] exactly as the call that
    passes [1]. *)
Theorem recordAttempt_defaults_and_result (u : User.t)
  (i : RecordAttempt.input) (w : World) (c : DailyChallenges.row) :
  challengeOf (RecordAttempt.challengeId i) w = Some c ->
  DailyChallenges.isActive c = true ->
  let o := run (recordAttempt i (signedIn u)) w in
  (exists a,
     result_of o = inr (Some a)
     /\ tblAttempts (world_of o) = tblAttempts w ++ [a]
     /\ DailyChallengeAttempts.id a
        = next_id (map DailyChallengeAttempts.id (tblAttempts w))
     /\ DailyChallengeAttempts.createdAt a = now w
     /\ DailyChallengeAttempts.challengeId a = RecordAttempt.challengeId i
     /\ DailyChallengeAttempts.userId a = User.id u
     /\ DailyChallengeAttempts.guess a = RecordAttempt.guess i
     /\ DailyChallengeAttempts.isCorrect a
        = match RecordAttempt.isCorrect i with Some b => b | None => false end
     /\ DailyChallengeAttempts.attemptNumber a
        = match RecordAttempt.attemptNumber i with Some n => n | None => 1 end)
  /\ (RecordAttempt.isCorrect i = None ->
      o = run (recordAttempt (withIsCorrect (Some false) i) (signedIn u)) w)
  /\ (RecordAttempt.attemptNumber i = None ->
      o = run (recordAttempt (withAttemptNumber (Some 1) i) (signedIn u)) w).
Proof.
  intros Hc Hact o. split; [|split].
  - subst o. rewrite (run_recordAttempt u i w c Hc Hact).
    eexists. cbn. repeat split.
  - intros Hnone. subst o. unfold recordAttempt. cbn. rewrite Hnone. reflexivity.
  - intros Hnone. subst o. unfold recordAttempt. cbn. rewrite Hnone. reflexivity.
Qed.

Lemma recordAttempt_defaults_and_result_witness :
  let i := {| RecordAttempt.challengeId := 1; RecordAttempt.guess := "crate";
              RecordAttempt.isCorrect := None;
              RecordAttempt.attemptNumber := None |} in
  let o := run (recordAttempt i (signedIn alice)) world0 in
  challengeOf 1 world0 = Some (challenge 1 "2025-01-01" true)
  /\ (exists a,
        result_of o = inr (Some a)
        /\ tblAttempts (world_of o) = [a]
        /\ DailyChallengeAttempts.id a = 1
        /\ DailyChallengeAttempts.createdAt a = 1000
        /\ DailyChallengeAttempts.isCorrect a = false
        /\ DailyChallengeAttempts.attemptNumber a = 1)
  /\ o = run (recordAttempt (withIsCorrect (Some false) i) (signedIn alice))
             world0
  /\ o = run (recordAttempt (withAttemptNumber (Some 1) i) (signedIn alice))
             world0.
Proof.
  intros i o. split; [reflexivity|].
  destruct (recordAttempt_defaults_and_result alice i world0
              (challenge 1 "2025-01-01" true) eq_refl eq_refl)
    as ((a & Hr & Ht & Hid & Hat & _ & _ & _ & Hok & Hn) & Hd1 & Hd2).
  split; [|split].
  - exists a. repeat split; assumption.
  - exact (Hd1 eq_refl).
  - exact (Hd2 eq_refl).
Defined.

(* ================================================================== *)
(** ** Listing *)

(** C10. For a signed-in user, [listAttempts] with [challengeId = 0] returns
    all the attempts of the user, as it does with no filter: the filter on
    the challenge is applied exactly when the given [challengeId] is not
    zero. *)
Theorem listAttempts_zero_lists_all (u : User.t) (w : World) :
  run (listAttempts (Some {| ListAttempts.challengeId := Some 0 |})
         (signedIn u)) w
    = (inr (attemptsByUser (User.id u) w), w, [Read Attempts])
  /\ run (listAttempts None (signedIn u)) w
    = (inr (attemptsByUser (User.id u) w), w, [Read Attempts])
  /\ run (listAttempts (Some {| ListAttempts.challengeId := None |})
            (signedIn u)) w
    = (inr (attemptsByUser (User.id u) w), w, [Read Attempts])
  /\ forall c,
       run (listAttempts (Some {| ListAttempts.challengeId := Some c |})
              (signedIn u)) w
       = (inr (if c =? 0
               then attemptsByUser (User.id u) w
               else filter (fun a => DailyChallengeAttempts.challengeId a =? c)
                           (attemptsByUser (User.id u) w)),
          w, [Read Attempts]).
Proof.
  repeat split. intros c. unfold listAttempts. cbn.
  destruct (c =? 0); reflexivity.
Qed.

(** In a world where the user has one attempt, on challenge 1, the call with
    [challengeId = 0] returns that attempt, although no attempt of the user is
    on a challenge 0. *)
Example listAttempts_zero_example :
  let w := submitAll alice [attemptOn 1 (Some true)] world0 in
  result_of (run (listAttempts (Some {| ListAttempts.challengeId := Some 0 |})
                    (signedIn alice)) w)
    = inr [attemptRow alice (attemptOn 1 (Some true)) world0]
  /\ filter (fun a => DailyChallengeAttempts.challengeId a =? 0)
            (attemptsByUser (User.id alice) w) = [].
Proof. split; reflexivity. Qed.

(* ================================================================== *)
(** ** Concurrent submissions *)

(** Running a call from start to end is letting its queries complete one
    after the other with no other call in between. *)
Lemma run_as_resumes {R} (p : Prog R) :
  forall w, exists n,
    interleave (repeat 0%nat n) [fst (settle p w)] (snd (settle p w))
    = ([ended (result_of (run p w))], world_of (run p w)).
Proof.
  induction p as [r|e|X q k IH|k IH]; intros w.
  - exists 0%nat. reflexivity.
  - exists 0%nat. reflexivity.
  - destruct (exec q w) as [x w1] eqn:Hx.
    destruct (IH x w1) as [n Hn]. exists (S n).
    cbn [repeat interleave resumeNth resume settle fst snd run]. rewrite Hx.
    destruct (settle (k x) w1) as [p' w'] eqn:Hs. cbn [fst snd] in Hn.
    rewrite Hn. destruct (run (k x) w1) as [[r w2] l]. reflexivity.
  - destruct (IH (now w) (tick w)) as [n Hn]. exists n. exact Hn.
Qed.

(** One query of the pending call at position [length done]. *)
Lemma resumeNth_at {R} (done todo : list (Prog R)) (p : Prog R) (w : World) :
  resumeNth (List.length done) (done ++ p :: todo) w
  = (done ++ fst (resume p w) :: todo, snd (resume p w)).
Proof.
  induction done as [|d done IH]; cbn [List.length app resumeNth].
  - destruct (resume p w); reflexivity.
  - rewrite IH. reflexivity.
Qed.

Lemma interleave_repeat {R} (n : nat) (done todo : list (Prog R)) :
  forall (p : Prog R) (w : World),
  interleave (repeat (List.length done) n) (done ++ p :: todo) w
  = (done ++ fst (resumes n p w) :: todo, snd (resumes n p w)).
Proof.
  induction n as [|n IH]; intros p w; cbn [repeat interleave resumes].
  - reflexivity.
  - rewrite resumeNth_at. destruct (resume p w) as [p' w']. cbn [fst snd].
    apply IH.
Qed.

Lemma interleave_app {R} (s1 s2 : list nat) :
  forall (pool : list (Prog R)) (w : World),
  interleave (s1 ++ s2) pool w
  = interleave s2 (fst (interleave s1 pool w)) (snd (interleave s1 pool w)).
Proof.
  induction s1 as [|n s1 IH]; intros pool w; cbn [app interleave].
  - reflexivity.
  - destruct (resumeNth n pool w) as [pool' w']. apply IH.
Qed.

(** A call on an active challenge is over once four of its queries have
    completed, and served in a row they leave what [run] leaves. *)
Lemma resumes_recordAttempt (u : User.t) (i : RecordAttempt.input) (w : World) :
  playable w i ->
  resumes 4 (recordAttempt i (signedIn u)) w
  = (Return (Some (attemptRow u i w)),
     world_of (run (recordAttempt i (signedIn u)) w)).
Proof.
  intros (c & Hc & Hact). rewrite (run_recordAttempt u i w c Hc Hact).
  unfold challengeOf in Hc.
  unfold recordAttempt, statsRowAfter, verdict, statsOf, world_of.
  simpl. rewrite Hc, Hact. simpl.
  change (statsByUser (User.id u) _) with (statsByUser (User.id u) w).
  destruct (hd_error (statsByUser (User.id u) w)); reflexivity.
Qed.

Lemma startAll_recordAttempt (u : User.t) (inputs : list RecordAttempt.input)
  (w : World) :
  startAll (map (fun i => recordAttempt i (signedIn u)) inputs) w
  = (map (fun i => recordAttempt i (signedIn u)) inputs, w).
Proof.
  induction inputs as [|i inputs IH]; cbn [map startAll].
  - reflexivity.
  - change (settle (recordAttempt i (signedIn u)) w)
      with (recordAttempt i (signedIn u), w).
    cbv beta iota. rewrite IH. reflexivity.
Qed.

(** Served serially, the pending calls all finish and leave the world of the
    sequential run. *)
Lemma interleave_serial (u : User.t) (todo : list RecordAttempt.input) :
  forall (done : list (Prog (option DailyChallengeAttempts.row))) (w : World),
  Forall (playable w) todo ->
  exists done',
    interleave (serial (List.length todo) (List.length done))
      (done ++ map (fun i => recordAttempt i (signedIn u)) todo) w
    = (done ++ done', submitAll u todo w)
    /\ forallb finished done' = true.
Proof.
  induction todo as [|i todo IH]; intros done w Hall.
  - exists []. split; reflexivity.
  - inversion Hall as [|? ? Hi Hrest]; subst.
    unfold serial. cbn [List.length seq flat_map map submitAll].
    rewrite interleave_app, interleave_repeat.
    rewrite (resumes_recordAttempt u i w Hi). cbn [fst snd].
    set (w1 := world_of (run (recordAttempt i (signedIn u)) w)).
    set (a := Return (Some (attemptRow u i w))).
    destruct Hi as (c & Hc & Hact).
    destruct (after_recordAttempt u i w c Hc Hact) as [Hch _]. fold w1 in Hch.
    destruct (IH (done ++ [a]) w1) as (done' & Heq & Hfin).
    { eapply Forall_impl; [|exact Hrest]. intros j. now apply playable_stable. }
    exists (a :: done'). split; [|exact Hfin].
    rewrite length_app in Heq. cbn [List.length] in Heq.
    rewrite Nat.add_1_r in Heq. rewrite <- app_assoc in Heq. cbn [app] in Heq.
    unfold serial in Heq. rewrite Heq. rewrite <- app_assoc. reflexivity.
Qed.

(** C9, as the code has it. Submissions that run one after the other, each to
    its end before the next starts, lose nothing: N correct submissions of a
    user who had no stats row leave [totalPlayed = N] and
    [currentStreak = N], and so do N concurrent ones when their queries are
    served serially.  Nothing in the handler makes a schedule serial. *)
Theorem sequential_submissions_counted (u : User.t)
  (inputs : list RecordAttempt.input) (w : World) :
  statsOf u w = None ->
  Forall (playable w) inputs ->
  Forall (fun i => verdict i = true) inputs ->
  let n := List.length inputs in
  (played (statsOf u (submitAll u inputs w)) = Z.of_nat n
   /\ streak (statsOf u (submitAll u inputs w)) = Z.of_nat n)
  /\ forallb finished (fst (submitConcurrently u inputs (serial n 0) w)) = true
  /\ snd (submitConcurrently u inputs (serial n 0) w) = submitAll u inputs w.
Proof.
  intros Hnone Hall Hok n. split.
  - destruct (submitAll_counters u inputs w Hall) as [Hp _].
    rewrite Hp, (submitAll_streak u inputs w Hall Hok), Hnone. cbn.
    split; reflexivity.
  - unfold submitConcurrently. rewrite startAll_recordAttempt.
    destruct (interleave_serial u inputs [] w Hall) as (done' & Heq & Hfin).
    cbn [List.length app] in Heq. subst n. rewrite Heq. cbn [fst snd app].
    split; [exact Hfin|reflexivity].
Qed.

Lemma sequential_submissions_counted_witness :
  let inputs := [attemptOn 1 (Some true); attemptOn 1 (Some true)] in
  statsOf alice world0 = None
  /\ (played (statsOf alice (submitAll alice inputs world0)) = 2
      /\ streak (statsOf alice (submitAll alice inputs world0)) = 2)
  /\ forallb finished
       (fst (submitConcurrently alice inputs [0; 0; 0; 0; 1; 1; 1; 1]%nat
               world0)) = true
  /\ snd (submitConcurrently alice inputs [0; 0; 0; 0; 1; 1; 1; 1]%nat world0)
     = submitAll alice inputs world0.
Proof.
  intros inputs. split; [reflexivity|].
  apply (sequential_submissions_counted alice inputs world0 eq_refl).
  - repeat constructor; eexists; split; reflexivity.
  - repeat constructor.
Defined.

(** Two concurrent correct submissions of a user without a stats row, their
    queries served in turn: both read that there is no row, both insert one,
    and the user is left with [totalPlayed = 1] and [currentStreak = 1]. *)
Example two_concurrent_submissions :
  let r := submitConcurrently alice
             [attemptOn 1 (Some true); attemptOn 1 (Some true)]
             [0; 1; 0; 1; 0; 1; 0; 1]%nat world0 in
  forallb finished (fst r) = true
  /\ List.length (tblAttempts (snd r)) = 2%nat
  /\ List.length (tblStats (snd r)) = 2%nat
  /\ played (statsOf alice (snd r)) = 1
  /\ streak (statsOf alice (snd r)) = 1.
Proof. repeat split. Qed.

(** The same two submissions, the second served after the first is finished,
    leave what the sequential run leaves. *)
Example two_serial_submissions :
  snd (submitConcurrently alice
         [attemptOn 1 (Some true); attemptOn 1 (Some true)]
         [0; 0; 0; 0; 1; 1; 1; 1]%nat world0)
  = submitAll alice [attemptOn 1 (Some true); attemptOn 1 (Some true)] world0.
Proof. reflexivity. Qed.

(** C9, as stated, fails: the read-modify-write of the stats row is not
    serialized, and an interleaving of two concurrent correct submissions
    loses an update. *)
Lemma concurrent_update_lost : ~ noLostUpdate.
Proof.
  intros H.
  destruct (H alice [attemptOn 1 (Some true); attemptOn 1 (Some true)]
              [0; 1; 0; 1; 0; 1; 0; 1]%nat world0 eq_refl) as [Hp _].
  - repeat constructor; eexists; split; reflexivity.
  - repeat constructor.
  - reflexivity.
  - vm_compute in Hp. discriminate Hp.
Qed.

(* ================================================================== *)
(** ** Every call of [recordAttempt] *)

Lemma context_cases (context : ActionAPIContext) :
  resolvedUser context = None \/ exists u, context = signedIn u.
Proof.
  destruct context as [[[[u|]]|]]; cbn;
    [right; exists u; reflexivity | left; reflexivity | left; reflexivity].
Qed.

Lemma run_recordAttempt_unauthorized (i : RecordAttempt.input)
  (context : ActionAPIContext) (w : World) :
  resolvedUser context = None ->
  run (recordAttempt i context) w = (inl unauthorized, w, []).
Proof.
  intros Hnone. unfold recordAttempt, requireUser. rewrite Hnone. reflexivity.
Qed.

Lemma run_recordAttempt_unavailable (u : User.t) (i : RecordAttempt.input)
  (w : World) :
  match challengeOf (RecordAttempt.challengeId i) w with
  | Some c => DailyChallenges.isActive c = false
  | None => True
  end ->
  run (recordAttempt i (signedIn u)) w
  = (inl not_available, w, [Read Challenges]).
Proof.
  unfold challengeOf, recordAttempt. simpl.
  destruct (hd_error (challengesById (RecordAttempt.challengeId i) w)) as [c|].
  - intros ->. reflexivity.
  - reflexivity.
Qed.

(** The three tables after a successful call. *)
Lemma recordAttempt_tables (u : User.t) (i : RecordAttempt.input) (w : World)
  (c : DailyChallenges.row) :
  challengeOf (RecordAttempt.challengeId i) w = Some c ->
  DailyChallenges.isActive c = true ->
  let w' := world_of (run (recordAttempt i (signedIn u)) w) in
  tblChallenges w' = tblChallenges w
  /\ tblAttempts w' = tblAttempts w ++ [attemptRow u i w]
  /\ exists t,
       let s := statsRowAfter (statsOf u w) (verdict i)
                  (DailyChallenges.challengeDate c) (User.id u) t
                  (next_id (map UserChallengeStats.id (tblStats w))) in
       tblStats w' =
       match statsOf u w with
       | Some e => replace_stats (UserChallengeStats.id e) s (tblStats w)
       | None => tblStats w ++ [s]
       end.
Proof.
  intros Hc Hact. cbv zeta. rewrite (run_recordAttempt u i w c Hc Hact).
  unfold world_of. cbn [fst snd tblChallenges tblAttempts tblStats set_stats
                          set_attempts tick].
  repeat split. eexists. reflexivity.
Qed.


(** A call changes the world only when it succeeds. *)
Lemma recordAttempt_cases (i : RecordAttempt.input)
  (context : ActionAPIContext) (w : World) :
  world_of (run (recordAttempt i context) w) = w
  \/ exists u c,
       context = signedIn u
       /\ challengeOf (RecordAttempt.challengeId i) w = Some c
       /\ DailyChallenges.isActive c = true.
Proof.
  destruct (context_cases context) as [Hnone | [u ->]].
  - left. now rewrite (run_recordAttempt_unauthorized i context w Hnone).
  - destruct (challengeOf (RecordAttempt.challengeId i) w) as [c|] eqn:Hc.
    + destruct (DailyChallenges.isActive c) eqn:Hact.
      * right. exists u, c. auto.
      * left. rewrite (run_recordAttempt_unavailable u i w); [reflexivity|].
        now rewrite Hc.
    + left. rewrite (run_recordAttempt_unavailable u i w); [reflexivity|].
      now rewrite Hc.
Qed.

(* ================================================================== *)
(** ** Keys *)

Lemma next_id_above (ids : list Z) (x : Z) : In x ids -> x < next_id ids.
Proof.
  unfold next_id. induction ids as [|y ids IH]; cbn [fold_right In].
  - intros [].
  - intros [-> | Hin]; [lia|]. specialize (IH Hin). lia.
Qed.

Lemma next_id_fresh (ids : list Z) : ~ In (next_id ids) ids.
Proof. intros Hin. apply next_id_above in Hin. lia. Qed.

Lemma NoDup_snoc {A} (l : list A) (a : A) :
  NoDup l -> ~ In a l -> NoDup (l ++ [a]).
Proof.
  intros Hnd Hnin. induction Hnd as [|b l Hb Hnd IH]; cbn.
  - constructor; [intros []|constructor].
  - constructor.
    + rewrite in_app_iff. cbn. intros [H | [-> | []]]; [auto|].
      apply Hnin. now left.
    + apply IH. intros H. apply Hnin. now right.
Qed.

Lemma NoDup_map_eq {A B} (f : A -> B) (l : list A) (a b : A) :
  NoDup (map f l) -> In a l -> In b l -> f a = f b -> a = b.
Proof.
  induction l as [|x l IH]; cbn; intros Hnd Ha Hb Heq; [contradiction|].
  inversion Hnd as [|? ? Hx Hnd']; subst.
  destruct Ha as [-> | Ha], Hb as [-> | Hb]; auto.
  - exfalso. apply Hx. rewrite Heq. now apply in_map.
  - exfalso. apply Hx. rewrite <- Heq. now apply in_map.
Qed.

Section Overwrite.
Context {A : Type} (P same : A -> bool).

(** Overwriting rows the filter does not keep by a row it does not keep
    leaves the first match as it was. *)
Lemma find_overwrite_other (l : list A) (s : A) :
  (forall r, In r l -> same r = true -> P r = false) -> P s = false ->
  find P (map (fun r => if same r then s else r) l) = find P l.
Proof.
  intros Hsame Hs. induction l as [|r l IH]; cbn; [reflexivity|].
  destruct (same r) eqn:Hr.
  - rewrite Hs, (Hsame r (or_introl eq_refl) Hr).
    apply IH. intros r' Hin. apply Hsame. now right.
  - destruct (P r); [reflexivity|].
    apply IH. intros r' Hin. apply Hsame. now right.
Qed.

Lemma find_app_other (l : list A) (a : A) :
  P a = false -> find P (l ++ [a]) = find P l.
Proof.
  intros Ha. induction l as [|r l IH]; cbn.
  - now rewrite Ha.
  - destruct (P r); [reflexivity|exact IH].
Qed.
End Overwrite.

Lemma statsOf_In (u : User.t) (w : World) (e : UserChallengeStats.row) :
  statsOf u w = Some e -> In e (tblStats w).
Proof. rewrite statsOf_find. intros H. now apply find_some in H. Qed.

Lemma statsRowAfter_id (e : UserChallengeStats.row) (ok : bool)
  (today userId : string) (t key : Z) :
  UserChallengeStats.id (statsRowAfter (Some e) ok today userId t key)
  = UserChallengeStats.id e
  /\ UserChallengeStats.userId (statsRowAfter (Some e) ok today userId t key)
     = UserChallengeStats.userId e.
Proof. split; reflexivity. Qed.

Lemma map_id_replace_stats (i : Z) (s : UserChallengeStats.row)
  (l : list UserChallengeStats.row) :
  UserChallengeStats.id s = i ->
  map UserChallengeStats.id (replace_stats i s l) = map UserChallengeStats.id l.
Proof.
  intros Hs. unfold replace_stats. rewrite map_map. apply map_ext_in.
  intros r _. destruct (UserChallengeStats.id r =? i) eqn:Hr; [|reflexivity].
  apply Z.eqb_eq in Hr. congruence.
Qed.

(** With keys that are keys, the update touches the row it read and no
    other. *)
Lemma map_userId_replace_stats (e s : UserChallengeStats.row)
  (l : list UserChallengeStats.row) :
  NoDup (map UserChallengeStats.id l) -> In e l ->
  UserChallengeStats.userId s = UserChallengeStats.userId e ->
  map UserChallengeStats.userId (replace_stats (UserChallengeStats.id e) s l)
  = map UserChallengeStats.userId l.
Proof.
  intros Hnd He Hs. unfold replace_stats. rewrite map_map. apply map_ext_in.
  intros r Hr.
  destruct (UserChallengeStats.id r =? UserChallengeStats.id e) eqn:Hid;
    [|reflexivity].
  apply Z.eqb_eq in Hid.
  rewrite (NoDup_map_eq UserChallengeStats.id l r e Hnd Hr He Hid). exact Hs.
Qed.

(** X2. A call of [recordAttempt] by one user, in a world whose stats rows
    have distinct keys, leaves the stats row and the attempts of every other
    user as they were. *)
Theorem recordAttempt_isolates_users (u u' : User.t) (i : RecordAttempt.input)
  (w : World) :
  NoDup (map UserChallengeStats.id (tblStats w)) ->
  User.id u' <> User.id u ->
  let w' := world_of (run (recordAttempt i (signedIn u)) w) in
  statsOf u' w' = statsOf u' w
  /\ attemptsByUser (User.id u') w' = attemptsByUser (User.id u') w.
Proof.
  intros Hnd Hneq w'.
  destruct (recordAttempt_cases i (signedIn u) w)
    as [Hsame | (u0 & c & Hctx & Hc & Hact)].
  - subst w'. rewrite Hsame. split; reflexivity.
  - injection Hctx as <-.
    destruct (recordAttempt_tables u i w c Hc Hact) as (_ & Hat & t & Hst).
    fold w' in Hat, Hst. cbv zeta in Hst.
    assert (Hother : forall s, UserChallengeStats.userId s = User.id u ->
              String.eqb (UserChallengeStats.userId s) (User.id u') = false).
    { intros s Hs. apply String.eqb_neq. congruence. }
    split.
    + rewrite !statsOf_find, Hst.
      destruct (statsOf u w) as [e|] eqn:He.
      * unfold replace_stats. apply find_overwrite_other.
        -- intros r Hr Hid. apply Z.eqb_eq in Hid.
           rewrite (NoDup_map_eq UserChallengeStats.id (tblStats w) r e Hnd Hr
                      (statsOf_In u w e He) Hid).
           apply Hother. now apply statsOf_userId with (w := w).
        -- apply Hother. cbn. now apply statsOf_userId with (w := w).
      * apply find_app_other. apply Hother. reflexivity.
    + unfold attemptsByUser. rewrite Hat, filter_app. cbn [filter].
      replace (String.eqb (DailyChallengeAttempts.userId (attemptRow u i w))
                 (User.id u')) with false.
      * apply app_nil_r.
      * symmetry. apply String.eqb_neq. cbn. congruence.
Qed.

(* ================================================================== *)
(** ** Listing, after recording *)

Lemma run_listAttempts (u : User.t) (input : option ListAttempts.input)
  (w : World) :
  run (listAttempts input (signedIn u)) w
  = (inr (match match input with
                | Some i => ListAttempts.challengeId i
                | None => None
                end with
          | Some c =>
              if c =? 0 then attemptsByUser (User.id u) w
              else filter (fun a => DailyChallengeAttempts.challengeId a =? c)
                          (attemptsByUser (User.id u) w)
          | None => attemptsByUser (User.id u) w
          end), w, [Read Attempts]).
Proof.
  unfold listAttempts. destruct input as [[[c|]]|]; cbn; try reflexivity.
  destruct (c =? 0); reflexivity.
Qed.

(** X3. [listAttempts] by a signed-in user reads the attempts and writes
    nothing; a row is returned exactly when it is an attempt of that user and,
    if a non-zero [challengeId] is given, on that challenge: no row of
    another user is ever returned. *)
Theorem listAttempts_own_rows (u : User.t) (input : option ListAttempts.input)
  (w : World) :
  let o := run (listAttempts input (signedIn u)) w in
  world_of o = w
  /\ log_of o = [Read Attempts]
  /\ exists rows,
       result_of o = inr rows
       /\ forall a,
            In a rows <->
            In a (tblAttempts w)
            /\ DailyChallengeAttempts.userId a = User.id u
            /\ match input with
               | Some {| ListAttempts.challengeId := Some c |} =>
                   c <> 0 -> DailyChallengeAttempts.challengeId a = c
               | _ => True
               end.
Proof.
  assert (Hmine : forall a,
            In a (attemptsByUser (User.id u) w) <->
            In a (tblAttempts w)
            /\ DailyChallengeAttempts.userId a = User.id u).
  { intros a. unfold attemptsByUser. rewrite filter_In.
    now rewrite String.eqb_eq. }
  unfold listAttempts. cbn. repeat split.
  destruct input as [[[c|]]|]; cbn;
    [destruct (c =? 0) eqn:Hz; cbn | |]; eexists; (split; [reflexivity|]);
    intros a.
  - apply Z.eqb_eq in Hz. rewrite Hmine. intuition.
  - apply Z.eqb_neq in Hz. rewrite filter_In, Hmine, Z.eqb_eq. intuition.
  - rewrite Hmine. intuition.
  - rewrite Hmine. intuition.
Qed.

(** X4. An attempt recorded is listed: after a successful [recordAttempt],
    [listAttempts] with no filter returns the attempts the user had followed
    by the row the call returned, and with the non-zero [challengeId] of the
    call, the attempts the user had on that challenge followed by that row. *)
Theorem recorded_attempt_is_listed (u : User.t) (i : RecordAttempt.input)
  (w : World) (c : DailyChallenges.row) :
  challengeOf (RecordAttempt.challengeId i) w = Some c ->
  DailyChallenges.isActive c = true ->
  let o := run (recordAttempt i (signedIn u)) w in
  let cid := RecordAttempt.challengeId i in
  exists a,
    result_of o = inr (Some a)
    /\ result_of (run (listAttempts None (signedIn u)) (world_of o))
       = inr (attemptsByUser (User.id u) w ++ [a])
    /\ (cid <> 0 ->
        result_of (run (listAttempts
                          (Some {| ListAttempts.challengeId := Some cid |})
                          (signedIn u)) (world_of o))
        = inr (filter (fun r => DailyChallengeAttempts.challengeId r =? cid)
                      (attemptsByUser (User.id u) w) ++ [a])).
Proof.
  intros Hc Hact o cid.
  destruct (recordAttempt_tables u i w c Hc Hact) as (_ & Hat & _).
  fold o in Hat. exists (attemptRow u i w).
  assert (Hmine : attemptsByUser (User.id u) (world_of o)
                  = attemptsByUser (User.id u) w ++ [attemptRow u i w]).
  { unfold attemptsByUser. rewrite Hat, filter_app. cbn.
    now rewrite String.eqb_refl. }
  split; [|split].
  - subst o. now rewrite (run_recordAttempt u i w c Hc Hact).
  - rewrite run_listAttempts. cbn [result_of fst]. now rewrite Hmine.
  - intros Hnz. rewrite run_listAttempts. cbn [result_of fst ListAttempts.challengeId].
    apply Z.eqb_neq in Hnz. rewrite Hnz, Hmine, filter_app.
    cbn [filter]. replace (DailyChallengeAttempts.challengeId (attemptRow u i w) =? cid) with true; [reflexivity|].
    symmetry. apply Z.eqb_refl.
Qed.

(* ================================================================== *)
(** ** Runs of correct outcomes *)

Lemma leading_le_longestRun (l : list bool) : (leading l <= longestRun l)%nat.
Proof. destruct l; cbn [longestRun]; [cbn; lia|apply Nat.le_max_l]. Qed.

Lemma leading_block (n : nat) :
  forall l, (n <= leading l)%nat -> exists post, l = repeat true n ++ post.
Proof.
  induction n as [|n IH]; intros l Hle.
  - exists l. reflexivity.
  - destruct l as [|[|] l]; cbn in Hle; try lia.
    destruct (IH l) as [post ->]; [lia|]. exists post. reflexivity.
Qed.

Lemma block_leading (n : nat) (post : list bool) :
  (n <= leading (repeat true n ++ post))%nat.
Proof. induction n as [|n IH]; cbn; lia. Qed.

(** The longest run is at least [n] exactly when [n] consecutive correct
    outcomes occur somewhere in the sequence. *)
Lemma longestRun_block (n : nat) (l : list bool) :
  (n <= longestRun l)%nat <->
  exists pre post, l = pre ++ repeat true n ++ post.
Proof.
  split.
  - induction l as [|b l IH]; intros Hle.
    + cbn in Hle. assert (n = 0%nat) as -> by lia. exists [], []. reflexivity.
    + cbn [longestRun] in Hle.
      destruct (Nat.le_gt_cases n (leading (b :: l))) as [Hl | Hl].
      * destruct (leading_block n (b :: l) Hl) as [post Hpost].
        exists [], post. exact Hpost.
      * destruct IH as (pre & post & ->); [lia|].
        exists (b :: pre), post. reflexivity.
  - intros (pre & post & ->). induction pre as [|b pre IH].
    + cbn [app]. pose proof (block_leading n post).
      pose proof (leading_le_longestRun (repeat true n ++ post)). lia.
    + cbn [app longestRun]. lia.
Qed.

Lemma longestRun_rev_le (l : list bool) :
  (longestRun (rev l) <= longestRun l)%nat.
Proof.
  destruct (proj1 (longestRun_block (longestRun (rev l)) (rev l)) (le_n _))
    as (pre & post & Heq).
  apply longestRun_block. exists (rev post), (rev pre).
  set (n := longestRun (rev l)) in *.
  apply (f_equal (@rev bool)) in Heq. rewrite rev_involutive in Heq.
  rewrite Heq, !rev_app_distr, rev_repeat. now rewrite app_assoc.
Qed.

Lemma longestRun_rev (l : list bool) : longestRun (rev l) = longestRun l.
Proof.
  apply Nat.le_antisymm; [apply longestRun_rev_le|].
  rewrite <- (rev_involutive l) at 1. apply longestRun_rev_le.
Qed.

(** X5. After a sequence of calls by a user who had no stats row, each on an
    active challenge, [currentStreak] is the number of correct outcomes the
    sequence ends with and [bestStreak] the length of the longest run of
    consecutive correct outcomes in it. *)
Theorem streaks_are_runs (u : User.t) (inputs : list RecordAttempt.input)
  (w : World) :
  statsOf u w = None ->
  Forall (playable w) inputs ->
  streak (statsOf u (submitAll u inputs w))
    = Z.of_nat (trailing (map verdict inputs))
  /\ best (statsOf u (submitAll u inputs w))
    = Z.of_nat (longestRun (map verdict inputs)).
Proof.
  intros Hnone. rewrite <- (longestRun_rev (map verdict inputs)).
  unfold trailing.
  induction inputs as [|i inputs IH] using rev_ind; intros Hall.
  - cbn. rewrite Hnone. split; reflexivity.
  - apply Forall_app in Hall. destruct Hall as [Hall Hi].
    inversion Hi as [|? ? Hpi _]; subst.
    destruct (IH Hall) as [Hs Hb].
    assert (Hi' : playable (submitAll u inputs w) i).
    { eapply playable_stable; [|exact Hpi]. now apply submitAll_challenges. }
    destruct Hi' as (c & Hc & Hact).
    destruct (after_recordAttempt u i _ c Hc Hact) as (_ & t & key & Hst).
    rewrite submitAll_snoc, Hst, streak_after, best_after, Hs, Hb.
    rewrite map_app, rev_app_distr. cbn [map rev app].
    destruct (verdict i); cbn [leading longestRun]; split; lia.
Qed.

(* ================================================================== *)
(** ** What each action does to the tables *)

Lemma crun_createChallenge (i : CreateChallenge.input) (w : World) :
  crun (createChallenge i) w
  = (inr (Some (createdRow i w)),
     set_challenges (tblChallenges w ++ [createdRow i w]) (tick w),
     [Write Challenges]).
Proof. reflexivity. Qed.

Lemma crun_updateChallenge (i : UpdateChallenge.input) (w : World) :
  crun (updateChallenge i) w
  = match challengeOf (UpdateChallenge.id i) w with
    | None => (inl not_found, w, [Read Challenges])
    | Some existing =>
        if UpdateData.isEmpty (UpdateChallenge.updateData i)
        then (inr (Some existing), w, [Read Challenges])
        else (inr (hd_error
                     (map (UpdateData.set (UpdateChallenge.updateData i))
                          (filter (fun c => DailyChallenges.id c
                                            =? UpdateChallenge.id i)
                                  (tblChallenges w)))),
              set_challenges
                (update_challenges (UpdateChallenge.id i)
                   (UpdateChallenge.updateData i) (tblChallenges w)) w,
              [Read Challenges; Write Challenges])
    end.
Proof.
  unfold updateChallenge, challengeOf. simpl.
  destruct (hd_error (challengesById (UpdateChallenge.id i) w)); [|reflexivity].
  destruct (UpdateData.isEmpty (UpdateChallenge.updateData i)); reflexivity.
Qed.

Lemma crun_getActiveChallengeForDate (i : GetActiveChallengeForDate.input)
  (w : World) :
  crun (getActiveChallengeForDate i) w
  = (match hd_error (challengesByDate
                       (GetActiveChallengeForDate.challengeDate i)
                       (nullish (GetActiveChallengeForDate.language i) "en") w)
     with
     | Some c => if DailyChallenges.isActive c then inr c else inl not_found
     | None => inl not_found
     end, w, [Read Challenges]).
Proof.
  unfold getActiveChallengeForDate. simpl.
  destruct (hd_error (challengesByDate _ _ w)) as [c|]; [|reflexivity].
  destruct (DailyChallenges.isActive c); reflexivity.
Qed.

Lemma listAttempts_world (input : option ListAttempts.input)
  (context : ActionAPIContext) (w : World) :
  world_of (run (listAttempts input context) w) = w.
Proof.
  destruct (context_cases context) as [Hnone | [u ->]].
  - unfold listAttempts, requireUser. now rewrite Hnone.
  - now rewrite run_listAttempts.
Qed.

Lemma getStats_world (context : ActionAPIContext) (w : World) :
  world_of (run (getStats context) w) = w.
Proof.
  destruct (context_cases context) as [Hnone | [u ->]].
  - unfold getStats, requireUser. now rewrite Hnone.
  - reflexivity.
Qed.

Lemma map_id_update_challenges (i : Z) (d : UpdateData.t)
  (l : list DailyChallenges.row) :
  map DailyChallenges.id (update_challenges i d l) = map DailyChallenges.id l.
Proof.
  unfold update_challenges. rewrite map_map. apply map_ext.
  intros c. destruct (DailyChallenges.id c =? i); reflexivity.
Qed.

(** What a call can do to the tables: nothing; add a challenge under a new
    key; overwrite columns of the challenges of one key; add an attempt and
    write the stats row of its user. *)
Lemma perform_cases (c : Call) (w : World) :
  let w' := perform c w in
  (tblChallenges w' = tblChallenges w /\ tblAttempts w' = tblAttempts w
   /\ tblStats w' = tblStats w)
  \/ (exists r,
        DailyChallenges.id r = next_id (map DailyChallenges.id (tblChallenges w))
        /\ tblChallenges w' = tblChallenges w ++ [r]
        /\ tblAttempts w' = tblAttempts w /\ tblStats w' = tblStats w)
  \/ (exists i d,
        tblChallenges w' = update_challenges i d (tblChallenges w)
        /\ tblAttempts w' = tblAttempts w /\ tblStats w' = tblStats w)
  \/ (exists u i ch t,
        challengeOf (RecordAttempt.challengeId i) w = Some ch
        /\ DailyChallenges.isActive ch = true
        /\ tblChallenges w' = tblChallenges w
        /\ tblAttempts w' = tblAttempts w ++ [attemptRow u i w]
        /\ statsOf u w' =
           Some (statsRowAfter (statsOf u w) (verdict i)
                   (DailyChallenges.challengeDate ch) (User.id u) t
                   (next_id (map UserChallengeStats.id (tblStats w))))
        /\ tblStats w' =
           match statsOf u w with
           | Some e =>
               replace_stats (UserChallengeStats.id e)
                 (statsRowAfter (statsOf u w) (verdict i)
                    (DailyChallenges.challengeDate ch) (User.id u) t
                    (next_id (map UserChallengeStats.id (tblStats w))))
                 (tblStats w)
           | None =>
               tblStats w ++
               [statsRowAfter (statsOf u w) (verdict i)
                  (DailyChallenges.challengeDate ch) (User.id u) t
                  (next_id (map UserChallengeStats.id (tblStats w)))]
           end).
Proof.
  destruct c as [i | i | i | i ctx | i ctx | ctx]; cbn [perform]; cbv zeta.
  - right. left. rewrite crun_createChallenge. exists (createdRow i w).
    repeat split.
  - rewrite crun_updateChallenge.
    destruct (challengeOf (UpdateChallenge.id i) w); [|left; repeat split].
    destruct (UpdateData.isEmpty (UpdateChallenge.updateData i));
      [left; repeat split|].
    right. right. left. eexists _, _. repeat split.
  - left. rewrite crun_getActiveChallengeForDate. repeat split.
  - destruct (recordAttempt_cases i ctx w)
      as [Hsame | (u & ch & -> & Hc & Hact)].
    + left. rewrite Hsame. repeat split.
    + right. right. right.
      destruct (recordAttempt_tables u i w ch Hc Hact)
        as (Hch & Hat & t & Hst).
      exists u, i, ch, t. cbv zeta in Hst.
      repeat split; try assumption.
      rewrite statsOf_find, Hst.
      destruct (statsOf u w) as [e|] eqn:He.
      * pose proof (statsOf_userId u w e He) as Hu.
        rewrite statsOf_find in He. unfold replace_stats.
        apply find_overwrite with (e := e); [exact He| |].
        -- apply Z.eqb_refl.
        -- cbn. rewrite Hu. apply String.eqb_refl.
      * rewrite statsOf_find in He. apply find_app_new; [exact He|].
        cbn. apply String.eqb_refl.
  - left. rewrite listAttempts_world. repeat split.
  - left. rewrite getStats_world. repeat split.
Qed.

(* ================================================================== *)
(** ** What every sequence of calls keeps *)

Lemma performAll_preserves (P : World -> Prop) :
  (forall c w, P w -> P (perform c w)) ->
  forall cs w, P w -> P (performAll cs w).
Proof.
  intros Hstep cs. unfold performAll.
  induction cs as [|c cs IH]; intros w Hw; cbn [fold_left]; auto.
Qed.



Lemma challengeOf_spec (i : Z) (w : World) (c : DailyChallenges.row) :
  challengeOf i w = Some c ->
  In c (tblChallenges w) /\ DailyChallenges.id c = i.
Proof.
  unfold challengeOf, challengesById. rewrite hd_firstn_filter.
  intros H. apply find_some in H. now rewrite Z.eqb_eq in H.
Qed.

Lemma statsOf_none (u : User.t) (w : World) :
  statsOf u w = None ->
  ~ In (User.id u) (map UserChallengeStats.userId (tblStats w)).
Proof.
  rewrite statsOf_find. intros Hnone Hin.
  apply in_map_iff in Hin. destruct Hin as (r & Hr & Hin).
  pose proof (find_none _ _ Hnone r Hin) as Hf. cbn in Hf.
  rewrite Hr, String.eqb_refl in Hf. discriminate.
Qed.



Lemma perform_keysUnique (c : Call) (w : World) :
  keysUnique w -> keysUnique (perform c w).
Proof.
  intros (Hc & Ha & Hs). unfold keysUnique.
  destruct (perform_cases c w)
    as [(Ec & Ea & Es) | [(r & Hr & Ec & Ea & Es) | [(i & d & Ec & Ea & Es)
       | (u & i & ch & t & _ & _ & Ec & Ea & _ & Es)]]];
    rewrite Ec, Ea, Es; clear Ec Ea Es.
  - auto.
  - repeat split; auto. rewrite map_app. cbn [map]. rewrite Hr.
    apply NoDup_snoc; [exact Hc | apply next_id_fresh].
  - repeat split; auto. now rewrite map_id_update_challenges.
  - repeat split; auto.
    + rewrite map_app. apply NoDup_snoc; [exact Ha | apply next_id_fresh].
    + destruct (statsOf u w) as [e|].
      * now rewrite map_id_replace_stats.
      * rewrite map_app. apply NoDup_snoc; [exact Hs | apply next_id_fresh].
Qed.

Lemma perform_oneRowPerUser (c : Call) (w : World) :
  keysUnique w -> oneRowPerUser w -> oneRowPerUser (perform c w).
Proof.
  intros (_ & _ & Hs) Hone. unfold oneRowPerUser in *.
  destruct (perform_cases c w)
    as [(_ & _ & Es) | [(r & _ & _ & _ & Es) | [(i & d & _ & _ & Es)
       | (u & i & ch & t & _ & _ & _ & _ & _ & Es)]]];
    rewrite Es; clear Es; auto.
  destruct (statsOf u w) as [e|] eqn:He.
  - rewrite map_userId_replace_stats; auto.
    now apply statsOf_In with (u := u).
  - rewrite map_app. apply NoDup_snoc; [exact Hone|].
    cbn. now apply statsOf_none.
Qed.


Lemma perform_attemptsReferChallenges (c : Call) (w : World) :
  attemptsReferChallenges w -> attemptsReferChallenges (perform c w).
Proof.
  unfold attemptsReferChallenges. intros Hr.
  destruct (perform_cases c w)
    as [(Ec & Ea & _) | [(r & _ & Ec & Ea & _) | [(i & d & Ec & Ea & _)
       | (u & i & ch & t & Hch & _ & Ec & Ea & _ & _)]]];
    rewrite Ec, Ea; clear Ec Ea.
  - exact Hr.
  - eapply Forall_impl; [|exact Hr]. intros a Ha.
    rewrite map_app. apply in_or_app. now left.
  - now rewrite map_id_update_challenges.
  - apply Forall_app. split; [exact Hr|]. constructor; [|constructor].
    apply challengeOf_spec in Hch. destruct Hch as [Hin Hid].
    cbn. rewrite <- Hid. now apply in_map.
Qed.

Lemma statsRowSound_step (prior : option UserChallengeStats.row) (ok : bool)
  (today userId : string) (t key : Z) :
  match prior with Some e => statsRowSound e | None => True end ->
  statsRowSound (statsRowAfter prior ok today userId t key).
Proof.
  unfold statsRowSound.
  destruct prior as [e|], ok; cbn; intros H;
    try destruct H as (H1 & H2 & H3 & H4 & H5 & H6 & H7);
    (split; [lia|]); (split; [lia|]); (split; [lia|]); (split; [lia|]);
    (split; [lia|]); (split; [discriminate|]);
    rewrite ?Z.add_0_r; try exact H7;
    split; intros Hx; try discriminate; try reflexivity; lia.
Qed.

Lemma perform_statsRowsSound (c : Call) (w : World) :
  Forall statsRowSound (tblStats w) ->
  Forall statsRowSound (tblStats (perform c w)).
Proof.
  intros Hall.
  destruct (perform_cases c w)
    as [(_ & _ & Es) | [(r & _ & _ & _ & Es) | [(i & d & _ & _ & Es)
       | (u & i & ch & t & _ & _ & _ & _ & _ & Es)]]];
    rewrite Es; clear Es; auto.
  assert (Hs : statsRowSound
                 (statsRowAfter (statsOf u w) (verdict i)
                    (DailyChallenges.challengeDate ch) (User.id u) t
                    (next_id (map UserChallengeStats.id (tblStats w))))).
  { apply statsRowSound_step. destruct (statsOf u w) as [e|] eqn:He; [|exact I].
    rewrite Forall_forall in Hall. apply Hall.
    now apply statsOf_In with (u := u). }
  destruct (statsOf u w) as [e|].
  - unfold replace_stats. rewrite Forall_map. eapply Forall_impl; [|exact Hall].
    intros r Hr. destruct (UserChallengeStats.id r =? UserChallengeStats.id e);
      assumption.
  - apply Forall_app. split; [exact Hall|]. constructor; [exact Hs|constructor].
Qed.

(** X6. Whatever calls are made one after the other, the primary keys stay
    keys: if no two rows of a table share an [id] before, none do after. *)
Theorem keys_stay_unique (cs : list Call) (w : World) :
  keysUnique w -> keysUnique (performAll cs w).
Proof.
  revert w. unfold performAll.
  induction cs as [|c cs IH]; intros w Hw; cbn [fold_left].
  - exact Hw.
  - apply IH. now apply perform_keysUnique.
Qed.

Lemma keys_stay_unique_witness :
  keysUnique (emptyWorld (fun n => Z.of_nat n)) /\ keysUnique sampleWorld.
Proof.
  assert (H0 : keysUnique (emptyWorld (fun n => Z.of_nat n))).
  { repeat split; constructor. }
  split; [exact H0|].
  exact (keys_stay_unique sampleCalls _ H0).
Defined.

(** X7. Calls made one after the other never leave a user with two stats
    rows: if the keys are keys and no two stats rows are of the same user
    before, the same holds after. *)
Theorem one_stats_row_per_user (cs : list Call) (w : World) :
  keysUnique w -> oneRowPerUser w ->
  keysUnique (performAll cs w) /\ oneRowPerUser (performAll cs w).
Proof.
  revert w. unfold performAll.
  induction cs as [|c cs IH]; intros w Hk Hone; cbn [fold_left].
  - split; assumption.
  - apply IH.
    + now apply perform_keysUnique.
    + now apply perform_oneRowPerUser.
Qed.

Lemma one_stats_row_per_user_witness :
  oneRowPerUser (emptyWorld (fun n => Z.of_nat n))
  /\ oneRowPerUser sampleWorld
  /\ List.length (tblStats sampleWorld) = 2%nat.
Proof.
  assert (H0 : keysUnique (emptyWorld (fun n => Z.of_nat n))).
  { repeat split; constructor. }
  assert (H1 : oneRowPerUser (emptyWorld (fun n => Z.of_nat n))).
  { constructor. }
  split; [exact H1|]. split; [|reflexivity].
  exact (proj2 (one_stats_row_per_user sampleCalls _ H0 H1)).
Defined.



(** X9. Calls made one after the other keep every attempt on a challenge of
    the table: an attempt is only inserted for a challenge that was found,
    and no call removes a challenge or changes its [id]. *)
Theorem attempts_refer_to_challenges (cs : list Call) (w : World) :
  attemptsReferChallenges w -> attemptsReferChallenges (performAll cs w).
Proof.
  revert w. unfold performAll.
  induction cs as [|c cs IH]; intros w Hw; cbn [fold_left].
  - exact Hw.
  - apply IH. now apply perform_attemptsReferChallenges.
Qed.

Lemma attempts_refer_to_challenges_witness :
  attemptsReferChallenges (emptyWorld (fun n => Z.of_nat n))
  /\ attemptsReferChallenges sampleWorld
  /\ List.length (tblAttempts sampleWorld) = 3%nat.
Proof.
  assert (H0 : attemptsReferChallenges (emptyWorld (fun n => Z.of_nat n))).
  { constructor. }
  split; [exact H0|]. split; [|reflexivity].
  exact (attempts_refer_to_challenges sampleCalls _ H0).
Defined.

(** X10. Calls made one after the other keep every stats row sound: at least
    one play, [0 <= currentStreak <= bestStreak <= totalSolved <=
    totalPlayed], [lastPlayedDate] set, and [lastSolvedDate] unset exactly
    when [totalSolved] is [0]. *)
Theorem stats_rows_stay_sound (cs : list Call) (w : World) :
  Forall statsRowSound (tblStats w) ->
  Forall statsRowSound (tblStats (performAll cs w)).
Proof.
  revert w. unfold performAll.
  induction cs as [|c cs IH]; intros w Hw; cbn [fold_left].
  - exact Hw.
  - apply IH. now apply perform_statsRowsSound.
Qed.

Lemma stats_rows_stay_sound_witness :
  Forall statsRowSound (tblStats (emptyWorld (fun n => Z.of_nat n)))
  /\ Forall statsRowSound (tblStats sampleWorld).
Proof.
  assert (H0 : Forall statsRowSound
                 (tblStats (emptyWorld (fun n => Z.of_nat n)))).
  { constructor. }
  split; [exact H0|].
  exact (stats_rows_stay_sound sampleCalls _ H0).
Defined.

(** X11. In a world where no two stats rows are of the same user, [getStats]
    by a signed-in user writes nothing and returns a row exactly when it is
    the stats row of that user; it returns [null] exactly when the user has
    none. *)
Theorem getStats_own_row (u : User.t) (w : World) :
  oneRowPerUser w ->
  let o := run (getStats (signedIn u)) w in
  world_of o = w
  /\ log_of o = [Read Stats]
  /\ (forall s,
        result_of o = inr (Some s) <->
        In s (tblStats w) /\ UserChallengeStats.userId s = User.id u)
  /\ (result_of o = inr None <->
      ~ In (User.id u) (map UserChallengeStats.userId (tblStats w))).
Proof.
  intros Hone o.
  assert (Ho : result_of o = inr (statsOf u w)) by reflexivity.
  split; [reflexivity|]. split; [reflexivity|]. rewrite Ho. split.
  - intros s. split.
    + intros H. injection H as H. split.
      * now apply statsOf_In with (u := u).
      * now apply statsOf_userId with (w := w).
    + intros [Hin Hu]. f_equal.
      destruct (statsOf u w) as [s'|] eqn:Hs'.
      * f_equal.
        apply (NoDup_map_eq UserChallengeStats.userId (tblStats w) s' s Hone).
        -- now apply statsOf_In with (u := u).
        -- exact Hin.
        -- rewrite Hu. now apply statsOf_userId with (w := w).
      * exfalso. apply (statsOf_none u w Hs'). rewrite <- Hu. now apply in_map.
  - split.
    + intros H. injection H as H. now apply statsOf_none.
    + intros Hnin. f_equal. destruct (statsOf u w) as [s'|] eqn:Hs'; auto.
      exfalso. apply Hnin.
      rewrite <- (statsOf_userId u w s' Hs'). apply in_map.
      now apply statsOf_In with (u := u).
Qed.

Lemma getStats_own_row_witness :
  oneRowPerUser sampleWorld
  /\ forall s,
       result_of (run (getStats (signedIn bob)) sampleWorld) = inr (Some s) <->
       In s (tblStats sampleWorld) /\ UserChallengeStats.userId s = User.id bob.
Proof.
  assert (H : oneRowPerUser sampleWorld).
  { unfold oneRowPerUser. vm_compute.
    repeat constructor; cbn; intuition discriminate. }
  split; [exact H|].
  exact (proj1 (proj2 (proj2 (getStats_own_row bob sampleWorld H)))).
Defined.

Lemma recordAttempt_isolates_users_witness :
  let w' := world_of (run (recordAttempt (attemptOn 1 (Some true))
                             (signedIn alice)) sampleWorld) in
  NoDup (map UserChallengeStats.id (tblStats sampleWorld))
  /\ statsOf bob w' = statsOf bob sampleWorld
  /\ attemptsByUser (User.id bob) w' = attemptsByUser (User.id bob) sampleWorld.
Proof.
  assert (H : NoDup (map UserChallengeStats.id (tblStats sampleWorld))).
  { vm_compute. repeat constructor; cbn; intuition discriminate. }
  split; [exact H|].
  apply (recordAttempt_isolates_users alice bob (attemptOn 1 (Some true))
           sampleWorld H).
  discriminate.
Defined.

(* ================================================================== *)
(** ** Challenge management *)

Section Find.
Context {A : Type} (P : A -> bool).

(** The first match splits the list. *)
Lemma find_split (l : list A) (c : A) :
  find P l = Some c <->
  exists pre post,
    l = pre ++ c :: post /\ (forall r, In r pre -> P r = false) /\ P c = true.
Proof.
  split.
  - induction l as [|r l IH]; cbn; [discriminate|].
    destruct (P r) eqn:Hr.
    + intros H. injection H as <-. exists [], l. repeat split; auto.
      intros r' [].
    + intros H. destruct (IH H) as (pre & post & -> & Hpre & Hc).
      exists (r :: pre), post. repeat split; auto.
      intros r' [<- | Hin]; auto.
  - intros (pre & post & -> & Hpre & Hc).
    induction pre as [|r pre IH]; cbn.
    + now rewrite Hc.
    + rewrite (Hpre r (or_introl eq_refl)). apply IH.
      intros r' Hin. apply Hpre. now right.
Qed.

(** A map that keeps what the filter tests keeps the first match. *)
Lemma find_map_same (f : A -> A) (l : list A) :
  (forall r, P (f r) = P r) ->
  find P (map f l) = option_map f (find P l).
Proof.
  intros Hf. induction l as [|r l IH]; cbn; [reflexivity|].
  rewrite Hf. destruct (P r); [reflexivity|exact IH].
Qed.
End Find.

Lemma challengeOf_find (i : Z) (w : World) :
  challengeOf i w = find (fun c => DailyChallenges.id c =? i) (tblChallenges w).
Proof. apply hd_firstn_filter. Qed.

Lemma challengeOf_ext (i : Z) (w w' : World) :
  tblChallenges w' = tblChallenges w -> challengeOf i w' = challengeOf i w.
Proof. intros H. unfold challengeOf, challengesById. now rewrite H. Qed.

Lemma challengeOf_fresh (w : World) :
  challengeOf (next_id (map DailyChallenges.id (tblChallenges w))) w = None.
Proof.
  rewrite challengeOf_find.
  destruct (find _ (tblChallenges w)) as [r|] eqn:Hf; [|reflexivity].
  apply find_some in Hf. destruct Hf as [Hin Hid]. apply Z.eqb_eq in Hid.
  exfalso. apply (next_id_fresh (map DailyChallenges.id (tblChallenges w))).
  rewrite <- Hid. now apply in_map.
Qed.

(** Looking a challenge up by [id] after a creation. *)
Lemma challengeOf_created (i : CreateChallenge.input) (j : Z) (w : World) :
  challengeOf j (world_of (crun (createChallenge i) w))
  = if j =? DailyChallenges.id (createdRow i w) then Some (createdRow i w)
    else challengeOf j w.
Proof.
  rewrite crun_createChallenge, !challengeOf_find.
  cbn [world_of fst snd tblChallenges set_challenges].
  destruct (j =? DailyChallenges.id (createdRow i w)) eqn:Hj.
  - apply Z.eqb_eq in Hj. subst j. apply find_app_new.
    + rewrite <- challengeOf_find. apply challengeOf_fresh.
    + apply Z.eqb_refl.
  - apply find_app_other. rewrite Z.eqb_sym. exact Hj.
Qed.

(** Looking a challenge up by [id] in a table some rows of which were set. *)
Lemma challengeOf_updated (i j : Z) (d : UpdateData.t) (w w' : World) :
  tblChallenges w' = update_challenges i d (tblChallenges w) ->
  challengeOf j w'
  = if j =? i then option_map (UpdateData.set d) (challengeOf i w)
    else challengeOf j w.
Proof.
  intros Ht. rewrite !challengeOf_find, Ht. unfold update_challenges.
  rewrite find_map_same.
  - destruct (j =? i) eqn:Hj.
    + apply Z.eqb_eq in Hj. subst j.
      destruct (find _ (tblChallenges w)) as [c|] eqn:Hf; [|reflexivity].
      apply find_some in Hf. destruct Hf as [_ Hid]. cbn. now rewrite Hid.
    + destruct (find _ (tblChallenges w)) as [c|] eqn:Hf; [|reflexivity].
      apply find_some in Hf. destruct Hf as [_ Hid]. apply Z.eqb_eq in Hid.
      cbn. rewrite Hid, Hj. reflexivity.
  - intros r. destruct (DailyChallenges.id r =? i); reflexivity.
Qed.

Lemma set_empty (d : UpdateData.t) (c : DailyChallenges.row) :
  UpdateData.isEmpty d = true -> UpdateData.set d c = c.
Proof.
  destruct d as [a1 a2 a3 a4 a5 a6 a7 a8 a9]. unfold UpdateData.isEmpty. cbn.
  destruct a1; [discriminate|]. destruct a2; [discriminate|].
  destruct a3; [discriminate|]. destruct a4; [discriminate|].
  destruct a5; [discriminate|]. destruct a6; [discriminate|].
  destruct a7; [discriminate|]. destruct a8; [discriminate|].
  destruct a9; [discriminate|]. intros _. destruct c. reflexivity.
Qed.

Lemma set_set (d : UpdateData.t) (c : DailyChallenges.row) :
  UpdateData.set d (UpdateData.set d c) = UpdateData.set d c.
Proof.
  destruct d as [a1 a2 a3 a4 a5 a6 a7 a8 a9].
  destruct a1, a2, a3, a4, a5, a6, a7, a8, a9; reflexivity.
Qed.

(** The row an update writes and returns. *)
Lemma updateChallenge_found (i : UpdateChallenge.input) (w : World)
  (c : DailyChallenges.row) :
  challengeOf (UpdateChallenge.id i) w = Some c ->
  let d := UpdateChallenge.updateData i in
  let o := crun (updateChallenge i) w in
  result_of o = inr (Some (UpdateData.set d c))
  /\ tblAttempts (world_of o) = tblAttempts w
  /\ tblStats (world_of o) = tblStats w
  /\ tblChallenges (world_of o)
     = update_challenges (UpdateChallenge.id i) d (tblChallenges w).
Proof.
  intros Hc d o. subst o. rewrite crun_updateChallenge, Hc. fold d.
  destruct (UpdateData.isEmpty d) eqn:He; cbn [result_of world_of fst snd].
  - rewrite (set_empty d c He). repeat split.
    unfold update_challenges. rewrite <- (map_id (tblChallenges w)) at 1.
    apply map_ext. intros r.
    destruct (DailyChallenges.id r =? UpdateChallenge.id i);
      [now rewrite set_empty|reflexivity].
  - repeat split. f_equal.
    rewrite challengeOf_find in Hc.
    induction (tblChallenges w) as [|r l IH]; cbn in *; [discriminate|].
    destruct (DailyChallenges.id r =? UpdateChallenge.id i).
    + injection Hc as ->. reflexivity.
    + auto.
Qed.

Lemma find_app_found {A} (P : A -> bool) (l l' : list A) (x : A) :
  find P l = Some x -> find P (l ++ l') = Some x.
Proof.
  induction l as [|r l IH]; cbn; [discriminate|].
  destruct (P r); auto.
Qed.

(** X12. [createChallenge] appends one challenge and returns it: the row has
    a key no challenge had, looking that key up finds the row, [language],
    [difficulty] and [isActive] are ["en"], [medium] and [true] when the
    input omits them, and the attempts and the stats are left alone. *)
Theorem createChallenge_stores_row (i : CreateChallenge.input) (w : World) :
  let o := crun (createChallenge i) w in
  exists c,
    result_of o = inr (Some c)
    /\ log_of o = [Write Challenges]
    /\ tblChallenges (world_of o) = tblChallenges w ++ [c]
    /\ tblAttempts (world_of o) = tblAttempts w
    /\ tblStats (world_of o) = tblStats w
    /\ ~ In (DailyChallenges.id c) (map DailyChallenges.id (tblChallenges w))
    /\ challengeOf (DailyChallenges.id c) (world_of o) = Some c
    /\ DailyChallenges.challengeDate c = CreateChallenge.challengeDate i
    /\ DailyChallenges.word c = CreateChallenge.word i
    /\ DailyChallenges.language c
       = match CreateChallenge.language i with Some l => l | None => "en" end
    /\ DailyChallenges.difficulty c
       = match CreateChallenge.difficulty i with
         | Some d => d
         | None => medium
         end
    /\ DailyChallenges.isActive c
       = match CreateChallenge.isActive i with Some b => b | None => true end
    /\ DailyChallenges.createdAt c = now w.
Proof.
  cbv zeta. exists (createdRow i w).
  pose proof (challengeOf_created i (DailyChallenges.id (createdRow i w)) w)
    as Hfind.
  rewrite Z.eqb_refl in Hfind.
  rewrite crun_createChallenge in *.
  cbn [result_of world_of log_of fst snd] in *.
  repeat split; try exact Hfind.
  apply next_id_fresh.
Qed.

(** X13. A challenge created is found by its date when it is the first one
    for that date and language: [getActiveChallengeForDate] with the date and
    the (given or omitted) language of the creation returns the new row if it
    is active and fails with not-found if it is not; when the table already
    had a challenge for that date and language, the lookup answers as it did
    before the creation. *)
Theorem created_challenge_found_by_date (i : CreateChallenge.input)
  (w : World) :
  let q := {| GetActiveChallengeForDate.challengeDate :=
                CreateChallenge.challengeDate i;
              GetActiveChallengeForDate.language :=
                CreateChallenge.language i |} in
  let w' := world_of (crun (createChallenge i) w) in
  result_of (crun (getActiveChallengeForDate q) w')
  = match find (onDate (CreateChallenge.challengeDate i)
                       (nullish (CreateChallenge.language i) "en"))
               (tblChallenges w) with
    | Some _ => result_of (crun (getActiveChallengeForDate q) w)
    | None =>
        if nullish (CreateChallenge.isActive i) true
        then inr (createdRow i w)
        else inl not_found
    end.
Proof.
  cbv zeta. rewrite !crun_getActiveChallengeForDate, crun_createChallenge.
  cbn [result_of world_of fst snd GetActiveChallengeForDate.challengeDate
         GetActiveChallengeForDate.language].
  unfold challengesByDate. rewrite !hd_firstn_filter.
  cbn [tblChallenges set_challenges tick].
  destruct (find _ (tblChallenges w)) as [c0|] eqn:Hf.
  - now rewrite (find_app_found _ _ _ c0 Hf).
  - rewrite (find_app_new _ _ (createdRow i w) Hf).
    + reflexivity.
    + unfold onDate. cbn. now rewrite !String.eqb_refl.
Qed.

(** X14. A challenge created can be played by the key [createChallenge]
    returned: a signed-in user's [recordAttempt] on that key returns the
    attempt and leaves the user's [lastPlayedDate] at the date given to the
    creation, unless the challenge was created with [isActive = false], in
    which case it fails with the not-found error. *)
Theorem created_challenge_is_playable (i : CreateChallenge.input) (u : User.t)
  (input : RecordAttempt.input) (w : World) :
  RecordAttempt.challengeId input = DailyChallenges.id (createdRow i w) ->
  let w' := world_of (crun (createChallenge i) w) in
  let o := run (recordAttempt input (signedIn u)) w' in
  if nullish (CreateChallenge.isActive i) true
  then result_of o = inr (Some (attemptRow u input w'))
       /\ exists s,
            statsOf u (world_of o) = Some s
            /\ UserChallengeStats.lastPlayedDate s
               = Some (CreateChallenge.challengeDate i)
  else result_of o = inl not_available /\ world_of o = w'.
Proof.
  intros Hid w' o.
  assert (Hc : challengeOf (RecordAttempt.challengeId input) w'
               = Some (createdRow i w)).
  { subst w'. rewrite challengeOf_created, Hid, Z.eqb_refl. reflexivity. }
  destruct (nullish (CreateChallenge.isActive i) true) eqn:Hact.
  - destruct (after_recordAttempt u input w' (createdRow i w) Hc Hact)
      as (_ & t & key & Hst). fold o in Hst.
    split.
    + subst o. now rewrite (run_recordAttempt u input w' (createdRow i w) Hc Hact).
    + eexists. split; [exact Hst|]. destruct (statsOf u w'); reflexivity.
  - subst o. rewrite (run_recordAttempt_unavailable u input w').
    + split; reflexivity.
    + rewrite Hc. exact Hact.
Qed.

Lemma created_challenge_is_playable_witness :
  let i := newChallenge "2025-02-01" None None in
  let w := emptyWorld (fun n => Z.of_nat n) in
  let w' := world_of (crun (createChallenge i) w) in
  let o := run (recordAttempt (attemptOn 1 (Some true)) (signedIn alice)) w' in
  DailyChallenges.id (createdRow i w) = 1
  /\ result_of o = inr (Some (attemptRow alice (attemptOn 1 (Some true)) w'))
  /\ exists s,
       statsOf alice (world_of o) = Some s
       /\ UserChallengeStats.lastPlayedDate s = Some "2025-02-01".
Proof.
  intros i w w' o. split; [reflexivity|].
  exact (created_challenge_is_playable i alice (attemptOn 1 (Some true)) w
           eq_refl).
Defined.

(** X15. [getActiveChallengeForDate] reads the challenges and writes nothing.
    It returns a challenge exactly when that challenge is active and is the
    first row of the table with the date and the language asked for (["en"]
    when omitted); otherwise it fails with the not-found error.  So an
    inactive first row hides every later challenge of the same date and
    language. *)
Theorem getActiveChallengeForDate_first_match
  (q : GetActiveChallengeForDate.input) (w : World) :
  let d := GetActiveChallengeForDate.challengeDate q in
  let l := match GetActiveChallengeForDate.language q with
           | Some x => x
           | None => "en"
           end in
  let o := crun (getActiveChallengeForDate q) w in
  world_of o = w
  /\ log_of o = [Read Challenges]
  /\ (forall c,
        result_of o = inr c <->
        DailyChallenges.isActive c = true
        /\ DailyChallenges.challengeDate c = d
        /\ DailyChallenges.language c = l
        /\ exists pre post,
             tblChallenges w = pre ++ c :: post
             /\ forall r, In r pre ->
                  ~ (DailyChallenges.challengeDate r = d
                     /\ DailyChallenges.language r = l))
  /\ (forall e, result_of o = inl e -> e = not_found).
Proof.
  intros d l o.
  assert (HonDate : forall r,
            onDate d l r = true <->
            DailyChallenges.challengeDate r = d
            /\ DailyChallenges.language r = l).
  { intros r. unfold onDate. now rewrite andb_true_iff, !String.eqb_eq. }
  assert (Ho : o = (match find (onDate d l) (tblChallenges w) with
                    | Some c =>
                        if DailyChallenges.isActive c then inr c
                        else inl not_found
                    | None => inl not_found
                    end, w, [Read Challenges])).
  { subst o. rewrite crun_getActiveChallengeForDate.
    unfold challengesByDate. now rewrite hd_firstn_filter. }
  rewrite Ho. cbn [world_of log_of result_of fst snd].
  split; [reflexivity|]. split; [reflexivity|]. split.
  - intros c. split.
    + intros Hres.
      destruct (find (onDate d l) (tblChallenges w)) as [c0|] eqn:Hf;
        [|discriminate].
      destruct (DailyChallenges.isActive c0) eqn:Hact; [|discriminate].
      injection Hres as <-.
      apply find_split in Hf. destruct Hf as (pre & post & Heq & Hpre & Hc).
      apply HonDate in Hc. destruct Hc as [Hd Hl].
      repeat split; auto. exists pre, post. split; [exact Heq|].
      intros r Hr Hon. apply HonDate in Hon.
      rewrite (Hpre r Hr) in Hon. discriminate.
    + intros (Hact & Hd & Hl & pre & post & Heq & Hpre).
      assert (Hf : find (onDate d l) (tblChallenges w) = Some c).
      { apply find_split. exists pre, post. split; [exact Heq|]. split.
        - intros r Hr. destruct (onDate d l r) eqn:Hon; [|reflexivity].
          exfalso. apply (Hpre r Hr). now apply HonDate.
        - apply HonDate. auto. }
      now rewrite Hf, Hact.
  - intros e.
    destruct (find (onDate d l) (tblChallenges w)) as [c0|];
      [destruct (DailyChallenges.isActive c0)|]; intros H;
      try discriminate; now injection H as <-.
Qed.

(** Two challenges for one date, the first not active: the lookup by date
    fails although the second is active. *)
Example inactive_first_row_hides_later :
  let w := performAll
             [callCreateChallenge (newChallenge "2025-03-01" None (Some false));
              callCreateChallenge (newChallenge "2025-03-01" None (Some true))]
             (emptyWorld (fun n => Z.of_nat n)) in
  map DailyChallenges.isActive (tblChallenges w) = [false; true]
  /\ result_of (crun (getActiveChallengeForDate
                        {| GetActiveChallengeForDate.challengeDate :=
                             "2025-03-01";
                           GetActiveChallengeForDate.language := None |}) w)
     = inl not_found.
Proof. split; reflexivity. Qed.

(** X16. [updateChallenge] on a key that finds no challenge fails with the
    not-found error and writes nothing.  On a key that finds one it returns
    that row with the given columns overwritten, and looking the key up
    afterwards finds the returned row; the challenges of every other key, the
    keys themselves, the attempts and the stats are as before; and when no
    column is given it writes nothing at all. *)
Theorem updateChallenge_then_lookup (i : UpdateChallenge.input) (w : World) :
  let d := UpdateChallenge.updateData i in
  let o := crun (updateChallenge i) w in
  match challengeOf (UpdateChallenge.id i) w with
  | None => o = (inl not_found, w, [Read Challenges])
  | Some c =>
      result_of o = inr (Some (UpdateData.set d c))
      /\ challengeOf (UpdateChallenge.id i) (world_of o)
         = Some (UpdateData.set d c)
      /\ (forall j, j <> UpdateChallenge.id i ->
            challengeOf j (world_of o) = challengeOf j w)
      /\ map DailyChallenges.id (tblChallenges (world_of o))
         = map DailyChallenges.id (tblChallenges w)
      /\ tblAttempts (world_of o) = tblAttempts w
      /\ tblStats (world_of o) = tblStats w
      /\ (UpdateData.isEmpty d = true ->
          o = (inr (Some c), w, [Read Challenges]))
  end.
Proof.
  intros d o.
  destruct (challengeOf (UpdateChallenge.id i) w) as [c|] eqn:Hc.
  - destruct (updateChallenge_found i w c Hc) as (Hres & Hat & Hst & Hch).
    fold d o in Hres, Hat, Hst, Hch.
    split; [exact Hres|]. split; [|split; [|split; [|split; [|split]]]]; auto.
    + rewrite (challengeOf_updated _ _ _ w _ Hch), Z.eqb_refl, Hc. reflexivity.
    + intros j Hj. rewrite (challengeOf_updated _ _ _ w _ Hch).
      apply Z.eqb_neq in Hj. now rewrite Hj.
    + rewrite Hch. apply map_id_update_challenges.
    + intros He. subst o. rewrite crun_updateChallenge, Hc. fold d.
      now rewrite He.
  - subst o. now rewrite crun_updateChallenge, Hc.
Qed.

Lemma update_challenges_twice (i : Z) (d : UpdateData.t)
  (l : list DailyChallenges.row) :
  update_challenges i d (update_challenges i d l) = update_challenges i d l.
Proof.
  unfold update_challenges. rewrite map_map. apply map_ext. intros r.
  destruct (DailyChallenges.id r =? i) eqn:Hr; [|now rewrite Hr].
  change (DailyChallenges.id (UpdateData.set d r)) with (DailyChallenges.id r).
  now rewrite Hr, set_set.
Qed.

(** X17. [updateChallenge] is absorbed when repeated: the same call run a
    second time returns what the first returned and leaves the world the
    first left. *)
Theorem updateChallenge_idempotent (i : UpdateChallenge.input) (w : World) :
  let o1 := crun (updateChallenge i) w in
  let o2 := crun (updateChallenge i) (world_of o1) in
  result_of o2 = result_of o1 /\ world_of o2 = world_of o1.
Proof.
  intros o1 o2.
  destruct (challengeOf (UpdateChallenge.id i) w) as [c|] eqn:Hc.
  - destruct (updateChallenge_found i w c Hc) as (Hres & _ & _ & Hch).
    fold o1 in Hres, Hch.
    assert (Hc1 : challengeOf (UpdateChallenge.id i) (world_of o1)
                  = Some (UpdateData.set (UpdateChallenge.updateData i) c)).
    { rewrite (challengeOf_updated _ _ _ w _ Hch), Z.eqb_refl, Hc.
      reflexivity. }
    destruct (updateChallenge_found i (world_of o1) _ Hc1)
      as (Hres2 & Hat2 & Hst2 & Hch2).
    fold o2 in Hres2, Hat2, Hst2, Hch2.
    split.
    + now rewrite Hres2, Hres, set_set.
    + rewrite Hch, update_challenges_twice, <- Hch in Hch2.
      subst o2. rewrite crun_updateChallenge, Hc1 in *.
      destruct (UpdateData.isEmpty (UpdateChallenge.updateData i));
        [reflexivity|].
      cbn [world_of fst snd] in *. cbn [tblChallenges set_challenges] in Hch2.
      rewrite Hch2. destruct (world_of o1). reflexivity.
  - assert (Ho1 : o1 = (inl not_found, w, [Read Challenges])).
    { subst o1. now rewrite crun_updateChallenge, Hc. }
    subst o2. rewrite Ho1. cbn [world_of fst snd].
    fold o1. rewrite Ho1. split; reflexivity.
Qed.

(** X18. [isActive] gates [recordAttempt]: after an [updateChallenge] that
    sets [isActive] on an existing challenge, a signed-in user's attempt on
    that challenge returns when it was set to [true] and fails with the
    not-found error, writing nothing, when it was set to [false]. *)
Theorem activation_gates_attempts (i : UpdateChallenge.input) (b : bool)
  (u : User.t) (input : RecordAttempt.input) (w : World)
  (c : DailyChallenges.row) :
  challengeOf (UpdateChallenge.id i) w = Some c ->
  UpdateChallenge.isActive i = Some b ->
  RecordAttempt.challengeId input = UpdateChallenge.id i ->
  let w' := world_of (crun (updateChallenge i) w) in
  let o := run (recordAttempt input (signedIn u)) w' in
  if b
  then result_of o = inr (Some (attemptRow u input w'))
  else result_of o = inl not_available /\ world_of o = w'.
Proof.
  intros Hc Hb Hid w' o.
  destruct (updateChallenge_found i w c Hc) as (_ & _ & _ & Hch).
  fold w' in Hch.
  assert (Hc' : challengeOf (RecordAttempt.challengeId input) w'
                = Some (UpdateData.set (UpdateChallenge.updateData i) c)).
  { rewrite Hid, (challengeOf_updated _ _ _ w _ Hch), Z.eqb_refl, Hc.
    reflexivity. }
  assert (Hact : DailyChallenges.isActive
                   (UpdateData.set (UpdateChallenge.updateData i) c) = b).
  { cbn. now rewrite Hb. }
  subst o. destruct b.
  - now rewrite (run_recordAttempt u input w' _ Hc' Hact).
  - rewrite (run_recordAttempt_unavailable u input w').
    + split; reflexivity.
    + rewrite Hc'. exact Hact.
Qed.

Lemma activation_gates_attempts_witness :
  let off := world_of (crun (updateChallenge (setActive 1 false)) world0) in
  let on := world_of (crun (updateChallenge (setActive 1 true)) off) in
  challengeOf 1 world0 = Some (challenge 1 "2025-01-01" true)
  /\ (result_of (run (recordAttempt (attemptOn 1 (Some true))
                        (signedIn alice)) off) = inl not_available
      /\ world_of (run (recordAttempt (attemptOn 1 (Some true))
                          (signedIn alice)) off) = off)
  /\ result_of (run (recordAttempt (attemptOn 1 (Some true))
                       (signedIn alice)) on)
     = inr (Some (attemptRow alice (attemptOn 1 (Some true)) on)).
Proof.
  intros off on. split; [reflexivity|]. split.
  - exact (activation_gates_attempts (setActive 1 false) false alice
             (attemptOn 1 (Some true)) world0
             (challenge 1 "2025-01-01" true) eq_refl eq_refl eq_refl).
  - exact (activation_gates_attempts (setActive 1 true) true alice
             (attemptOn 1 (Some true)) off
             (challenge 1 "2025-01-01" false) eq_refl eq_refl eq_refl).
Defined.

(* ================================================================== *)
(** ** What no call undoes *)

Lemma challengeKept_refl (c : DailyChallenges.row) : challengeKept c c.
Proof. unfold challengeKept. tauto. Qed.

Lemma challengeKept_trans (a b c : DailyChallenges.row) :
  challengeKept a b -> challengeKept b c -> challengeKept a c.
Proof. unfold challengeKept. intuition congruence. Qed.

Lemma challengeKept_set (d : UpdateData.t) (c : DailyChallenges.row) :
  challengeKept c (UpdateData.set d c).
Proof.
  unfold challengeKept. cbn.
  destruct (UpdateData.definition d), (UpdateData.exampleSentence d),
    (UpdateData.hint d); cbn; repeat split; auto; discriminate.
Qed.

Lemma perform_keeps_challenge (c : Call) (w : World) (r : DailyChallenges.row) :
  In r (tblChallenges w) ->
  exists r', In r' (tblChallenges (perform c w)) /\ challengeKept r r'.
Proof.
  intros Hin.
  destruct (perform_cases c w)
    as [(Ec & _) | [(n & _ & Ec & _) | [(i & d & Ec & _)
       | (u & i & ch & t & _ & _ & Ec & _)]]]; rewrite Ec.
  - exists r. split; [exact Hin|apply challengeKept_refl].
  - exists r. split; [apply in_or_app; now left|apply challengeKept_refl].
  - exists (if DailyChallenges.id r =? i then UpdateData.set d r else r).
    split.
    + unfold update_challenges.
      apply (in_map (fun c0 => if DailyChallenges.id c0 =? i
                               then UpdateData.set d c0 else c0)).
      exact Hin.
    + destruct (DailyChallenges.id r =? i);
        [apply challengeKept_set|apply challengeKept_refl].
  - exists r. split; [exact Hin|apply challengeKept_refl].
Qed.

(** X19. No sequence of calls deletes a challenge: every challenge of the
    table is still there afterwards, under the same [id] and with the same
    [createdAt], and a [definition], [exampleSentence] or [hint] it had is
    not unset. *)
Theorem challenges_persist (cs : list Call) (w : World)
  (r : DailyChallenges.row) :
  In r (tblChallenges w) ->
  exists r', In r' (tblChallenges (performAll cs w)) /\ challengeKept r r'.
Proof.
  revert w r. unfold performAll.
  induction cs as [|c cs IH]; intros w r Hin; cbn [fold_left].
  - exists r. split; [exact Hin|apply challengeKept_refl].
  - destruct (perform_keeps_challenge c w r Hin) as (r1 & Hin1 & Hk1).
    destruct (IH (perform c w) r1 Hin1) as (r' & Hin' & Hk').
    exists r'. split; [exact Hin'|].
    now apply challengeKept_trans with (b := r1).
Qed.

Lemma challenges_persist_witness :
  let calls := [callUpdateChallenge (setActive 1 false);
                callCreateChallenge (newChallenge "2025-02-01" None None);
                callRecordAttempt (attemptOn 2 None) (signedIn alice)] in
  In (challenge 1 "2025-01-01" true) (tblChallenges world0)
  /\ exists r',
       In r' (tblChallenges (performAll calls world0))
       /\ challengeKept (challenge 1 "2025-01-01" true) r'.
Proof.
  intros calls.
  assert (H : In (challenge 1 "2025-01-01" true) (tblChallenges world0)).
  { left. reflexivity. }
  split; [exact H|].
  exact (challenges_persist calls world0 _ H).
Defined.

(** X20. Attempts are only ever appended: after any sequence of calls the
    attempts table is the table before followed by new rows, at most one for
    each call made; no call changes or removes an attempt. *)
Theorem attempts_append_only (cs : list Call) (w : World) :
  exists l,
    tblAttempts (performAll cs w) = tblAttempts w ++ l
    /\ (List.length l <= List.length cs)%nat.
Proof.
  revert w. unfold performAll.
  induction cs as [|c cs IH]; intros w; cbn [fold_left List.length].
  - exists []. split; [now rewrite app_nil_r|apply le_n].
  - destruct (IH (perform c w)) as (l & Heq & Hlen). rewrite Heq.
    destruct (perform_cases c w)
      as [(_ & Ea & _) | [(n & _ & _ & Ea & _) | [(i & d & _ & Ea & _)
         | (u & i & ch & t & _ & _ & _ & Ea & _)]]]; rewrite Ea.
    + exists l. split; [reflexivity|lia].
    + exists l. split; [reflexivity|lia].
    + exists l. split; [reflexivity|lia].
    + exists (attemptRow u i w :: l). split.
      * now rewrite <- app_assoc.
      * cbn [List.length]. lia.
Qed.

(* ================================================================== *)
(** ** Concurrent calls: the attempts *)












Lemma recorded_attempt_is_listed_witness :
  let w := submitAll alice [attemptOn 1 (Some true)] world0 in
  let o := run (recordAttempt (attemptOn 2 None) (signedIn alice)) w in
  challengeOf 2 w = Some (challenge 2 "2025-01-02" true)
  /\ exists a,
       result_of o = inr (Some a)
       /\ result_of (run (listAttempts None (signedIn alice)) (world_of o))
          = inr (attemptsByUser "alice" w ++ [a])
       /\ (2 <> 0 ->
           result_of (run (listAttempts
                             (Some {| ListAttempts.challengeId := Some 2 |})
                             (signedIn alice)) (world_of o))
           = inr (filter (fun r => DailyChallengeAttempts.challengeId r =? 2)
                         (attemptsByUser "alice" w) ++ [a])).
Proof.
  intros w o. split; [reflexivity|].
  exact (recorded_attempt_is_listed alice (attemptOn 2 None) w
           (challenge 2 "2025-01-02" true) eq_refl eq_refl).
Defined.

Lemma streaks_are_runs_witness :
  let inputs := [attemptOn 1 (Some true); attemptOn 2 (Some true);
                 attemptOn 3 None; attemptOn 1 (Some true)] in
  statsOf alice world0 = None
  /\ trailing (map verdict inputs) = 1%nat
  /\ longestRun (map verdict inputs) = 2%nat
  /\ streak (statsOf alice (submitAll alice inputs world0))
     = Z.of_nat (trailing (map verdict inputs))
  /\ best (statsOf alice (submitAll alice inputs world0))
     = Z.of_nat (longestRun (map verdict inputs)).
Proof.
  intros inputs. split; [reflexivity|]. split; [reflexivity|].
  split; [reflexivity|].
  apply (streaks_are_runs alice inputs world0 eq_refl).
  repeat constructor; eexists; split; reflexivity.
Defined.

(* ================================================================== *)
(** ** Concurrent calls: keys and stats rows *)

Lemma disciplined_recordAttempt (i : RecordAttempt.input)
  (context : ActionAPIContext) :
  disciplined (recordAttempt i context).
Proof.
  destruct (context_cases context) as [Hnone | [u ->]].
  - unfold recordAttempt, requireUser. rewrite Hnone. exact I.
  - unfold recordAttempt. cbn. split; [exact I|]. intros rows _.
    destruct (hd_error rows) as [ch|]; [|exact I].
    destruct (negb (DailyChallenges.isActive ch)); [exact I|].
    cbn. intros t. split; [exact I|]. intros inserted _.
    split; [exact I|]. intros found Hfound.
    destruct found as [|e found]; cbn.
    + intros t'. split; [|intros; exact I]. intros key.
      exact (statsRowSound_step None
               (nullish (RecordAttempt.isCorrect i) false)
               (DailyChallenges.challengeDate ch) (User.id u) t' key I).
    + intros t'. split; [|intros; exact I]. split; [reflexivity|].
      apply (statsRowSound_step (Some e)
               (nullish (RecordAttempt.isCorrect i) false)
               (DailyChallenges.challengeDate ch) (User.id u) t' 0).
      now inversion Hfound.
Qed.

Lemma disciplined_settle {R} (p : Prog R) :
  forall w, disciplined p -> disciplined (fst (settle p w)).
Proof.
  induction p as [r|e|X q k IH|k IH]; intros w Hd; cbn [settle fst];
    [exact Hd | exact Hd | exact Hd | apply IH; apply Hd].
Qed.

Lemma settle_tables {R} (p : Prog R) :
  forall w,
  tblChallenges (snd (settle p w)) = tblChallenges w
  /\ tblAttempts (snd (settle p w)) = tblAttempts w
  /\ tblStats (snd (settle p w)) = tblStats w.
Proof.
  induction p as [r|e|X q k IH|k IH]; intros w; cbn [settle snd];
    [repeat split | repeat split | repeat split
    | exact (IH (now w) (tick w))].
Qed.

Lemma firstn_one_In {A} (l : list A) (x : A) : In x (firstn 1 l) -> In x l.
Proof. destruct l as [|a l]; cbn; [tauto|]. intros [-> | []]. now left. Qed.

(** A sound write keeps the keys keys and the stats rows sound, and a read
    of a sound table is a sound answer. *)
Lemma exec_sound {X} (q : Eff X) (w : World) :
  keysUnique w -> Forall statsRowSound (tblStats w) -> writeSound q ->
  keysUnique (snd (exec q w))
  /\ Forall statsRowSound (tblStats (snd (exec q w)))
  /\ answerSound q (fst (exec q w)).
Proof.
  intros (Hc & Ha & Hs) Hall Hw. unfold keysUnique.
  destruct q as [i | v | u | u | i r | v]; cbn in *.
  - repeat split; auto.
  - repeat split; auto.
    rewrite map_app. apply NoDup_snoc; [exact Ha | apply next_id_fresh].
  - repeat split; auto.
  - repeat split; auto.
    rewrite Forall_forall in *. intros s Hin. apply Hall.
    unfold statsByUser in Hin. apply firstn_one_In in Hin.
    now apply filter_In in Hin.
  - destruct Hw as [Hid Hr]. repeat split; auto.
    + now rewrite map_id_replace_stats.
    + unfold replace_stats. rewrite Forall_map.
      eapply Forall_impl; [|exact Hall]. intros s Hs0.
      destruct (UserChallengeStats.id s =? i); assumption.
  - repeat split; auto.
    + rewrite map_app. apply NoDup_snoc; [exact Hs | apply next_id_fresh].
    + apply Forall_app. split; [exact Hall|].
      constructor; [apply Hw|constructor].
Qed.

Lemma resume_sound {R} (p : Prog R) (w : World) :
  keysUnique w -> Forall statsRowSound (tblStats w) -> disciplined p ->
  keysUnique (snd (resume p w))
  /\ Forall statsRowSound (tblStats (snd (resume p w)))
  /\ disciplined (fst (resume p w)).
Proof.
  intros Hk Hall Hd.
  destruct p as [r|e|X q k|k]; cbn [resume fst snd]; auto.
  destruct Hd as [Hw Hk'].
  destruct (exec_sound q w Hk Hall Hw) as (Hk1 & Hall1 & Hans).
  destruct (exec q w) as [x w1]. cbn [fst snd] in *.
  destruct (settle_tables (k x) w1) as (Ec & Ea & Es).
  pose proof (disciplined_settle (k x) w1 (Hk' x Hans)) as Hd1.
  destruct (settle (k x) w1) as [p' w2]. cbn [fst snd] in *.
  unfold keysUnique in *. rewrite Ec, Ea, Es. auto.
Qed.

Lemma resumeNth_sound {R} (pool : list (Prog R)) :
  forall n w,
  keysUnique w -> Forall statsRowSound (tblStats w) ->
  Forall disciplined pool ->
  keysUnique (snd (resumeNth n pool w))
  /\ Forall statsRowSound (tblStats (snd (resumeNth n pool w)))
  /\ Forall disciplined (fst (resumeNth n pool w)).
Proof.
  induction pool as [|p pool IH]; intros n w Hk Hall Hd.
  - destruct n; cbn; auto.
  - inversion Hd as [|? ? Hp Hrest]; subst.
    destruct n as [|n]; cbn [resumeNth].
    + destruct (resume_sound p w Hk Hall Hp) as (Hk1 & Hall1 & Hd1).
      destruct (resume p w) as [p' w']. cbn [fst snd] in *. auto.
    + destruct (IH n w Hk Hall Hrest) as (Hk1 & Hall1 & Hd1).
      destruct (resumeNth n pool w) as [pool' w']. cbn [fst snd] in *. auto.
Qed.

Lemma interleave_sound {R} (sched : list nat) :
  forall (pool : list (Prog R)) w,
  keysUnique w -> Forall statsRowSound (tblStats w) ->
  Forall disciplined pool ->
  keysUnique (snd (interleave sched pool w))
  /\ Forall statsRowSound (tblStats (snd (interleave sched pool w))).
Proof.
  induction sched as [|n sched IH]; intros pool w Hk Hall Hd;
    cbn [interleave].
  - auto.
  - destruct (resumeNth_sound pool n w Hk Hall Hd) as (Hk1 & Hall1 & Hd1).
    destruct (resumeNth n pool w) as [pool1 w1]. cbn [fst snd] in *.
    now apply IH.
Qed.

Lemma startAll_sound {R} (progs : list (Prog R)) :
  forall w,
  Forall disciplined progs ->
  Forall disciplined (fst (startAll progs w))
  /\ tblChallenges (snd (startAll progs w)) = tblChallenges w
  /\ tblAttempts (snd (startAll progs w)) = tblAttempts w
  /\ tblStats (snd (startAll progs w)) = tblStats w.
Proof.
  induction progs as [|p progs IH]; intros w Hall; cbn [startAll].
  - repeat split. constructor.
  - inversion Hall as [|? ? Hp Hrest]; subst.
    pose proof (disciplined_settle p w Hp) as Hd.
    destruct (settle_tables p w) as (Ec & Ea & Es).
    destruct (settle p w) as [p' w1]. cbn [fst snd] in *.
    destruct (IH w1 Hrest) as (Hd' & Ec' & Ea' & Es').
    destruct (startAll progs w1) as [rest' w2]. cbn [fst snd] in *.
    repeat split; [now constructor|congruence|congruence|congruence].
Qed.

(** X22. Concurrent calls of [recordAttempt] may lose updates of the
    counters, but however their queries interleave, and at every moment, the
    primary keys stay keys and every stats row stays sound ([0 <=
    currentStreak <= bestStreak <= totalSolved <= totalPlayed], at least one
    play, [lastSolvedDate] unset exactly when nothing was solved). *)
Theorem concurrent_calls_keep_rows_sound
  (calls : list (RecordAttempt.input * ActionAPIContext)) (sched : list nat)
  (w : World) :
  keysUnique w -> Forall statsRowSound (tblStats w) ->
  keysUnique (snd (recordConcurrently calls sched w))
  /\ Forall statsRowSound (tblStats (snd (recordConcurrently calls sched w))).
Proof.
  intros Hk Hall. unfold recordConcurrently.
  destruct (startAll_sound
              (map (fun c => recordAttempt (fst c) (snd c)) calls) w)
    as (Hd & Ec & Ea & Es).
  { apply Forall_map. apply Forall_forall. intros c _.
    apply disciplined_recordAttempt. }
  destruct (startAll _ w) as [pool w0]. cbn [fst snd] in *.
  apply interleave_sound; [|now rewrite Es|exact Hd].
  unfold keysUnique in *. now rewrite Ec, Ea, Es.
Qed.

Lemma concurrent_calls_keep_rows_sound_witness :
  let r := recordConcurrently
             [(attemptOn 1 (Some true), signedIn alice);
              (attemptOn 2 None, signedIn alice)]
             [0; 1; 0; 1; 0; 1; 1; 0]%nat world0 in
  keysUnique world0
  /\ List.length (tblStats (snd r)) = 2%nat
  /\ keysUnique (snd r)
  /\ Forall statsRowSound (tblStats (snd r)).
Proof.
  intros r.
  assert (Hk : keysUnique world0).
  { unfold keysUnique. vm_compute.
    repeat split; repeat constructor; cbn; intuition discriminate. }
  split; [exact Hk|]. split; [reflexivity|].
  apply (concurrent_calls_keep_rows_sound
           [(attemptOn 1 (Some true), signedIn alice);
            (attemptOn 2 None, signedIn alice)]
           [0; 1; 0; 1; 0; 1; 1; 0]%nat world0 Hk).
  constructor.
Defined.

(** X23. The one-row-per-user property is not kept under concurrency: there
    are concurrent calls of [recordAttempt] and a schedule that, from a world
    with unique keys and at most one stats row per user, leave a user with
    two stats rows. *)
Theorem concurrency_breaks_one_row_per_user :
  ~ (forall calls sched w,
       keysUnique w -> oneRowPerUser w ->
       oneRowPerUser (snd (recordConcurrently calls sched w))).
Proof.
  intros H.
  specialize (H [(attemptOn 1 (Some true), signedIn alice);
                 (attemptOn 2 (Some true), signedIn alice)]
                [0; 1; 0; 1; 0; 1; 0; 1]%nat world0).
  assert (Hk : keysUnique world0).
  { unfold keysUnique. vm_compute.
    repeat split; repeat constructor; cbn; intuition discriminate. }
  assert (H1 : oneRowPerUser world0) by constructor.
  specialize (H Hk H1). unfold oneRowPerUser in H. vm_compute in H.
  inversion H as [|? ? Hnin _]. apply Hnin. left. reflexivity.
Qed.

(* ================================================================== *)
(** ** No de-duplication *)

Lemma max_ids_nonneg (ids : list Z) : 0 <= fold_right Z.max 0 ids.
Proof. induction ids as [|x ids IH]; cbn; lia. Qed.

Lemma next_id_snoc (ids : list Z) :
  next_id (ids ++ [next_id ids]) = next_id ids + 1.
Proof.
  assert (G : forall l b, 0 <= b ->
            fold_right Z.max 0 (l ++ [b]) = Z.max (fold_right Z.max 0 l) b).
  { induction l as [|x l IH]; intros b Hb; cbn; [lia|].
    rewrite IH by exact Hb. lia. }
  pose proof (max_ids_nonneg ids) as Hm.
  unfold next_id. rewrite G by lia. lia.
Qed.

(** X24. [recordAttempt] does not de-duplicate: the same call made twice in
    succession stores two attempt rows, equal in [challengeId], [userId],
    [guess], [isCorrect] and [attemptNumber], under consecutive keys, and each
    call returns its own row. *)
Theorem recordAttempt_stores_duplicates (u : User.t) (i : RecordAttempt.input)
  (w : World) (c : DailyChallenges.row) :
  challengeOf (RecordAttempt.challengeId i) w = Some c ->
  DailyChallenges.isActive c = true ->
  let o1 := run (recordAttempt i (signedIn u)) w in
  let o2 := run (recordAttempt i (signedIn u)) (world_of o1) in
  exists a1 a2,
    result_of o1 = inr (Some a1)
    /\ result_of o2 = inr (Some a2)
    /\ tblAttempts (world_of o2) = tblAttempts w ++ [a1; a2]
    /\ DailyChallengeAttempts.id a2 = DailyChallengeAttempts.id a1 + 1
    /\ DailyChallengeAttempts.challengeId a2
       = DailyChallengeAttempts.challengeId a1
    /\ DailyChallengeAttempts.userId a2 = DailyChallengeAttempts.userId a1
    /\ DailyChallengeAttempts.guess a2 = DailyChallengeAttempts.guess a1
    /\ DailyChallengeAttempts.isCorrect a2
       = DailyChallengeAttempts.isCorrect a1
    /\ DailyChallengeAttempts.attemptNumber a2
       = DailyChallengeAttempts.attemptNumber a1.
Proof.
  intros Hc Hact o1 o2.
  destruct (recordAttempt_tables u i w c Hc Hact) as (Hch & Hat & _).
  fold o1 in Hch, Hat.
  assert (Hc1 : challengeOf (RecordAttempt.challengeId i) (world_of o1)
                = Some c).
  { now rewrite (challengeOf_ext _ w _ Hch). }
  destruct (recordAttempt_tables u i (world_of o1) c Hc1 Hact)
    as (_ & Hat2 & _).
  fold o2 in Hat2.
  exists (attemptRow u i w), (attemptRow u i (world_of o1)).
  split; [subst o1; now rewrite (run_recordAttempt u i w c Hc Hact)|].
  split; [subst o2;
          now rewrite (run_recordAttempt u i (world_of o1) c Hc1 Hact)|].
  split; [rewrite Hat2, Hat, <- app_assoc; reflexivity|].
  split; [|repeat split].
  cbn [attemptRow DailyChallengeAttempts.id DailyChallengeAttempts.with_id].
  rewrite Hat, map_app. cbn [map].
  apply (next_id_snoc (map DailyChallengeAttempts.id (tblAttempts w))).
Qed.

Lemma recordAttempt_stores_duplicates_witness :
  let o1 := run (recordAttempt (attemptOn 1 None) (signedIn alice)) world0 in
  let o2 := run (recordAttempt (attemptOn 1 None) (signedIn alice))
              (world_of o1) in
  challengeOf 1 world0 = Some (challenge 1 "2025-01-01" true)
  /\ exists a1 a2,
       result_of o1 = inr (Some a1)
       /\ result_of o2 = inr (Some a2)
       /\ tblAttempts (world_of o2) = tblAttempts world0 ++ [a1; a2]
       /\ DailyChallengeAttempts.id a2 = DailyChallengeAttempts.id a1 + 1
       /\ DailyChallengeAttempts.attemptNumber a2
          = DailyChallengeAttempts.attemptNumber a1.
Proof.
  intros o1 o2. split; [reflexivity|].
  destruct (recordAttempt_stores_duplicates alice (attemptOn 1 None) world0
              (challenge 1 "2025-01-01" true) eq_refl eq_refl)
    as (a1 & a2 & H1 & H2 & H3 & H4 & _ & _ & _ & _ & H9).
  exists a1, a2. repeat split; assumption.
Defined.

(* ================================================================== *)
(** ** A challenge moved to another date *)



